(** * Mision Bonos: the simulation engine of [app.py]

    A shallow embedding of the engine functions of [app.py] (pricing model,
    yield composition, price publication, position/cash reconstruction, order
    execution, leaderboard, and the moderator's round state machine) together
    with the properties established about them.

    Conventions of the embedding.
    - Python [float] values are modelled as exact rationals [Q]; rounding of
      binary64 arithmetic is outside the model.  Equalities between computed
      amounts are therefore stated with [==] ([Qeq]); equalities between
      stored records are Leibniz equalities.
    - The exceptions that only the range of binary64 produces are outside the
      model as well: [(1 + i) ** k] raises [OverflowError] when the power
      leaves the binary64 range, and a power that underflows to [0.0] makes
      the next division raise [ZeroDivisionError].  General properties of the
      value of [price_bond_mid] therefore take its return as a premise; the
      model's [Raise] outcomes are the exceptions of exact arithmetic, which
      the program raises too.
    - Python [int] values are [Z]; strings are [string].
    - A Python exception is the [Raise] outcome of the [result] type.  Every
      exception modelled here is raised before the function mutates the game
      state, so [Raise] carries no state: the caller's state is untouched.
    - [datetime.utcnow().isoformat()] is passed in as the argument [now].
    - A Python [dict] whose iteration order matters is an association list in
      insertion order ([dict_set] updates in place or appends). *)

From Stdlib Require Import ZArith QArith Qround Qpower Qminmax Bool List String Lia.
From Stdlib Require Import Permutation Sorted Setoid Morphisms DecimalString DecimalNat.
Import ListNotations.

Local Open Scope Q_scope.

(* ------------------------------------------------------------------ *)
(** ** Outcomes: a value or a Python exception                          *)
(* ------------------------------------------------------------------ *)

Inductive exn : Type :=
| ZeroDivisionError
| TypeError.

Inductive result (A : Type) : Type :=
| Ok (a : A)
| Raise (e : exn).

Arguments Ok {A} a.
Arguments Raise {A} e.

Definition bind {A B : Type} (m : result A) (k : A -> result B) : result B :=
  match m with
  | Ok a => k a
  | Raise e => Raise e
  end.

Notation "x <- m ;; k" := (bind m (fun x => k))
  (at level 61, m at next level, right associativity).

(** [for x in xs: acc = body(acc, x)], stopping at the first exception. *)
Fixpoint for_each {A S : Type} (body : S -> A -> result S) (xs : list A) (acc : S)
  : result S :=
  match xs with
  | [] => Ok acc
  | x :: rest => acc' <- body acc x ;; for_each body rest acc'
  end.

(** A list comprehension whose element expression may raise. *)
Fixpoint map_result {A B : Type} (f : A -> result B) (xs : list A) : result (list B) :=
  match xs with
  | [] => Ok []
  | x :: rest => y <- f x ;; ys <- map_result f rest ;; Ok (y :: ys)
  end.

(* ------------------------------------------------------------------ *)
(** ** Numbers                                                          *)
(* ------------------------------------------------------------------ *)

(** [a < b] on floats. *)
Definition Qltb (a b : Q) : bool := negb (Qle_bool b a).

(** [a / b]: Python raises [ZeroDivisionError] on a zero divisor. *)
Definition py_div (a b : Q) : result Q :=
  if Qeq_bool b 0 then Raise ZeroDivisionError else Ok (a / b).

(** [max(a, b)] of Python: [b] when [b > a], else [a]. *)
Definition py_max (a b : Q) : Q := if Qltb a b then b else a.

(** [sum(...)] of Python: left to right, starting from [0]. *)
Definition py_sum (xs : list Q) : Q := fold_left Qplus xs 0.

(** [x or d] on an [int]: [0] is falsy. *)
Definition int_or (x d : Z) : Z := if (x =? 0)%Z then d else x.

(** [str(x)] of an optional string: [None] prints as ["None"]. *)
Definition py_str (x : option string) : string :=
  match x with
  | Some s => s
  | None => "None"%string
  end.

(* ------------------------------------------------------------------ *)
(** ** Data model (the JSON game document)                              *)
(* ------------------------------------------------------------------ *)

Inductive estado_t : Type := LOBBY | TRADING_ON | TRADING_OFF | FIN.

Inductive tipo_t : Type := MARKET | IDIOS.

Inductive side_t : Type := BUY | SELL.

Record game_t : Type := mkGame {
  game_code : string;
  rondas_totales : Z;
  ronda_actual : Z;
  estado : estado_t;
  fraccion_anio : Q;
  bid_bp : Q;
  ask_bp : Q;
  comision_bps : Q;
  g_created_at : string;
  g_cash_inicial : Q
}.

Record bond_t : Type := mkBond {
  b_bond_id : string;
  nombre : string;
  valor_nominal : Q;
  tasa_cupon_anual : Q;
  frecuencia_anual : Z;
  vencimiento_anios : Q;
  spread_bps : Q;
  callable : bool;
  precio_call : option Q;
  b_descripcion : string
}.

Record event_t : Type := mkEvent {
  e_round : Z;
  tipo : tipo_t;
  e_bond_id : option string;
  delta_tasa_bps : Q;
  impacto_bps : Q;
  e_descripcion : string;
  publicado : bool
}.

Record price_t : Type := mkPrice {
  p_ronda : Z;
  p_bond_id : string;
  y_efectiva : Q;
  precio_mid : Q;
  precio_bid : Q;
  precio_ask : Q;
  ts_publicacion : string
}.

Record team_t : Type := mkTeam {
  team_id : string;
  team_name : string;
  pin : string;
  activo : bool;
  t_created_at : string;
  cash_inicial : Q
}.

Record order_t : Type := mkOrder {
  o_ts : string;
  o_team_id : string;
  o_bond_id : string;
  side : side_t;
  qty : Q;
  price_exec : Q;
  fees : Q;
  o_ronda : Z
}.

Record ledger_t : Type := mkLedger {
  l_team_id : string;
  cash_delta : Q;
  reason : string
}.

Record state : Type := mkState {
  game : game_t;
  bonds : list bond_t;
  events : list event_t;
  prices : list price_t;
  teams : list team_t;
  orders : list order_t;
  ledger : list ledger_t
}.

Definition estado_eqb (a b : estado_t) : bool :=
  match a, b with
  | LOBBY, LOBBY | TRADING_ON, TRADING_ON
  | TRADING_OFF, TRADING_OFF | FIN, FIN => true
  | _, _ => false
  end.

Definition tipo_eqb (a b : tipo_t) : bool :=
  match a, b with
  | MARKET, MARKET | IDIOS, IDIOS => true
  | _, _ => false
  end.

(** Field updates of the mutable document. *)
Definition set_estado (g : game_t) (e : estado_t) : game_t :=
  mkGame (game_code g) (rondas_totales g) (ronda_actual g) e (fraccion_anio g)
         (bid_bp g) (ask_bp g) (comision_bps g) (g_created_at g) (g_cash_inicial g).

Definition set_ronda_actual (g : game_t) (r : Z) : game_t :=
  mkGame (game_code g) (rondas_totales g) r (estado g) (fraccion_anio g)
         (bid_bp g) (ask_bp g) (comision_bps g) (g_created_at g) (g_cash_inicial g).

Definition set_rondas_totales (g : game_t) (n : Z) : game_t :=
  mkGame (game_code g) n (ronda_actual g) (estado g) (fraccion_anio g)
         (bid_bp g) (ask_bp g) (comision_bps g) (g_created_at g) (g_cash_inicial g).

Definition set_publicado (e : event_t) (b : bool) : event_t :=
  mkEvent (e_round e) (tipo e) (e_bond_id e) (delta_tasa_bps e) (impacto_bps e)
          (e_descripcion e) b.

Definition with_game (s : state) (g : game_t) : state :=
  mkState g (bonds s) (events s) (prices s) (teams s) (orders s) (ledger s).

Definition with_orders (s : state) (os : list order_t) : state :=
  mkState (game s) (bonds s) (events s) (prices s) (teams s) os (ledger s).

(** The fresh document of [load_state]. *)
Definition load_state_default (code now : string) : state :=
  mkState (mkGame code 3 1 LOBBY (1 # 4) 20 20 10 now 1000000) [] [] [] [] [] [].

(* ------------------------------------------------------------------ *)
(** ** Pricing model                                                    *)
(* ------------------------------------------------------------------ *)

(** One iteration of [for k in range(1, N + 1): pv += C / ((1 + i) ** k)]. *)
Definition pv_step (C i : Q) (pv : Q) (k : nat) : result Q :=
  term <- py_div C ((1 + i) ^ Z.of_nat k) ;; Ok (pv + term).

Definition price_bond_mid (bond : bond_t) (ytm_anual frac_anio : Q) (rounds_elapsed : Z)
  : result Q :=
  let f := int_or (frecuencia_anual bond) 2 in
  let V := valor_nominal bond in
  let cup_anual := tasa_cupon_anual bond in
  let venc_ini := vencimiento_anios bond in
  let venc_rest := py_max 0 (venc_ini - inject_Z rounds_elapsed * frac_anio) in
  dt <- py_div 1 (inject_Z f) ;;
  q <- py_div venc_rest dt ;;
  let N := Z.max 1 (Qceiling q) in
  cf <- py_div cup_anual (inject_Z f) ;;
  let C := V * cf in
  i <- py_div ytm_anual (inject_Z f) ;;
  pv <- for_each (pv_step C i) (seq 1 (Z.to_nat N)) 0 ;;
  last <- py_div V ((1 + i) ^ N) ;;
  Ok (py_max (1 # 100) (pv + last)).

Definition bid_ask_from_mid (mid bid_bp ask_bp : Q) : Q * Q :=
  (mid * (1 - bid_bp / 10000), mid * (1 + ask_bp / 10000)).

Definition effective_ytm (spread_bps delta_market_bps idios_bps : Q) : Q :=
  (spread_bps + delta_market_bps + idios_bps) / 10000.

Definition bond_B1 : bond_t :=
  mkBond "B1" "Bono Tesoro 2028" 1000 (8 # 100) 2 3 50 false None "Soberano".

(* ------------------------------------------------------------------ *)
(** ** Dictionaries in insertion order                                  *)
(* ------------------------------------------------------------------ *)

Definition dict : Type := list (string * Q).

Fixpoint dict_get (d : dict) (k : string) : option Q :=
  match d with
  | [] => None
  | (k', v) :: rest => if String.eqb k' k then Some v else dict_get rest k
  end.

(** [d.get(k, dflt)]. *)
Definition dict_get_or (d : dict) (k : string) (dflt : Q) : Q :=
  match dict_get d k with
  | Some v => v
  | None => dflt
  end.

(** [d[k] = v]: an existing key keeps its place, a new key goes last. *)
Fixpoint dict_set (d : dict) (k : string) (v : Q) : dict :=
  match d with
  | [] => [(k, v)]
  | (k', v') :: rest =>
      if String.eqb k' k then (k, v) :: rest else (k', v') :: dict_set rest k v
  end.

(* ------------------------------------------------------------------ *)
(** ** Yield composition and price publication                          *)
(* ------------------------------------------------------------------ *)

(** [sum(e.delta_tasa_bps for e in events if e.round == r and e.tipo == "MARKET")]. *)
Definition ev_mkt (evs : list event_t) (r : Z) : Q :=
  py_sum (map delta_tasa_bps
            (filter (fun e => (e_round e =? r)%Z && tipo_eqb (tipo e) MARKET) evs)).

(** [sum(e.impacto_bps for e in events if e.round == r and e.tipo == "IDIOS"
         and str(e.bond_id) == str(b.bond_id))]. *)
Definition ev_idios (evs : list event_t) (r : Z) (b : bond_t) : Q :=
  py_sum (map impacto_bps
            (filter (fun e => (e_round e =? r)%Z && tipo_eqb (tipo e) IDIOS
                              && String.eqb (py_str (e_bond_id e)) (b_bond_id b)) evs)).

(** The yield used for bond [b] in round [r]. *)
Definition bond_ytm (evs : list event_t) (r : Z) (b : bond_t) : Q :=
  effective_ytm (spread_bps b) (ev_mkt evs r) (ev_idios evs r b).

(** The body of the loop over [state["bonds"]]. *)
Definition price_point (g : game_t) (evs : list event_t) (now : string) (b : bond_t)
  : result price_t :=
  let r := ronda_actual g in
  let ytm := bond_ytm evs r b in
  mid <- price_bond_mid b ytm (fraccion_anio g) (r - 1) ;;
  let '(bid, ask) := bid_ask_from_mid mid (bid_bp g) (ask_bp g) in
  Ok (mkPrice r (b_bond_id b) ytm mid bid ask now).

Definition mark_published (r : Z) (e : event_t) : event_t :=
  if (e_round e =? r)%Z then set_publicado e true else e.

Definition publish_prices_for_round (st : state) (now : string) : result state :=
  let g := game st in
  let r := ronda_actual g in
  new_prices <- map_result (price_point g (events st) now) (bonds st) ;;
  Ok (mkState (set_estado g TRADING_ON)
              (bonds st)
              (map (mark_published r) (events st))
              (filter (fun p => negb (p_ronda p =? r)%Z) (prices st) ++ new_prices)
              (teams st) (orders st) (ledger st)).

(** [{p.bond_id: p.precio_mid for p in prices if p.ronda == ronda}]. *)
Definition get_prices_dict (st : state) (ronda : Z) : dict :=
  fold_left (fun d p => dict_set d (p_bond_id p) (precio_mid p))
            (filter (fun p => (p_ronda p =? ronda)%Z) (prices st)) [].

(* ------------------------------------------------------------------ *)
(** ** Teams and reconstruction of positions and cash                   *)
(* ------------------------------------------------------------------ *)

Definition team_get (st : state) (name : string) : option team_t :=
  find (fun t => String.eqb (team_name t) name) (teams st).

Definition ledger_step (tid : string) (cash : Q) (l : ledger_t) : Q :=
  if String.eqb (l_team_id l) tid then cash + cash_delta l else cash.

Definition order_step (tid : string) (acc : dict * Q) (o : order_t) : dict * Q :=
  let '(pos, cash) := acc in
  if negb (String.eqb (o_team_id o) tid) then (pos, cash)
  else
    match side o with
    | BUY =>
        (dict_set pos (o_bond_id o) (dict_get_or pos (o_bond_id o) 0 + qty o),
         cash - (qty o * price_exec o + fees o))
    | SELL =>
        (dict_set pos (o_bond_id o) (dict_get_or pos (o_bond_id o) 0 - qty o),
         cash + (qty o * price_exec o - fees o))
    end.

Definition team_positions_and_cash (st : state) (name : string) : dict * Q :=
  match team_get st name with
  | None => ([], 0)
  | Some team =>
      let cash := fold_left (ledger_step (team_id team)) (ledger st) (cash_inicial team) in
      fold_left (order_step (team_id team)) (orders st) ([], cash)
  end.

(* ------------------------------------------------------------------ *)
(** ** Order execution                                                  *)
(* ------------------------------------------------------------------ *)

Inductive mensaje : Type :=
| MsgNoPrecio            (* "No hay precios publicados para este bono/ronda." *)
| MsgCashInsuficiente    (* "Cash insuficiente." *)
| MsgNoPosee             (* "No posee cantidad suficiente para vender." *)
| MsgOK                  (* "OK" *)
| MsgEjecutada (s : side_t) (q : Q) (bond_id : string) (px fees : Q).
                         (* "Orden {side} {qty} {bond_id} @ {px} (fees {fees}) ejecutada." *)

(** [next((p for p in prices if p.ronda == r and p.bond_id == bond_id), None)]. *)
Definition find_price (st : state) (r : Z) (bond_id : string) : option price_t :=
  find (fun p => (p_ronda p =? r)%Z && String.eqb (p_bond_id p) bond_id) (prices st).

Definition can_exec_order (st : state) (name : string) (sd : side_t) (bond_id : string)
           (q : Q) : bool * mensaje * Q * Q :=
  let g := game st in
  let r := ronda_actual g in
  match find_price st r bond_id with
  | None => (false, MsgNoPrecio, 0, 0)
  | Some p =>
      let px_exec := match sd with BUY => precio_ask p | SELL => precio_bid p end in
      let fees_bps := comision_bps g in
      let fees := (q * px_exec) * (fees_bps / 10000) in
      let '(pos, cash) := team_positions_and_cash st name in
      match sd with
      | BUY =>
          if Qltb cash (q * px_exec + fees)
          then (false, MsgCashInsuficiente, px_exec, fees)
          else (true, MsgOK, px_exec, fees)
      | SELL =>
          if Qltb (dict_get_or pos bond_id 0) q
          then (false, MsgNoPosee, px_exec, fees)
          else (true, MsgOK, px_exec, fees)
      end
  end.

(** [team["team_id"]] on [team = None] raises [TypeError] while the order
    record is being built, before [append] is called. *)
Definition exec_order (st : state) (now name : string) (sd : side_t) (bond_id : string)
           (q : Q) : result (state * (bool * mensaje)) :=
  let '(ok, msg, px_exec, fees) := can_exec_order st name sd bond_id q in
  if negb ok then Ok (st, (false, msg))
  else
    match team_get st name with
    | None => Raise TypeError
    | Some team =>
        let o := mkOrder now (team_id team) bond_id sd q px_exec fees
                         (ronda_actual (game st)) in
        Ok (with_orders st (orders st ++ [o]),
            (true, MsgEjecutada sd q bond_id px_exec fees))
    end.

(** The order form of the participant panel: shown only while the phase is
    TRADING_ON, quantity from [number_input(min_value=1, step=1)], then
    [exec_order(state, team, side, bond, int(qty))]. [None]: nothing is
    submitted. *)
Definition ui_participant_enviar_orden (st : state) (now name : string) (sd : side_t)
           (bond_id : string) (cantidad : Z) : option (result (state * (bool * mensaje))) :=
  if estado_eqb (estado (game st)) TRADING_ON && (1 <=? cantidad)%Z
  then Some (exec_order st now name sd bond_id (inject_Z cantidad))
  else None.

Definition string_of_nat (n : nat) : string :=
  DecimalString.NilZero.string_of_uint (Nat.to_uint n).

(** Returns the document and the success flag (the source mutates the
    document in place and returns the flag with a message). *)
Definition team_register (st : state) (now name pin_ : string) : state * bool :=
  match team_get st name with
  | Some _ => (st, false)
  | None =>
      let cash0 := g_cash_inicial (game st) in
      let team := mkTeam (String.append "T" (string_of_nat (List.length (teams st) + 1)))
                         name pin_ true now cash0 in
      (mkState (game st) (bonds st) (events st) (prices st) (teams st ++ [team])
               (orders st) (ledger st), true)
  end.

(* ------------------------------------------------------------------ *)
(** ** Leaderboard                                                      *)
(* ------------------------------------------------------------------ *)

Record row : Type := mkRow {
  Equipo : string;
  Cash : Q;
  Valor_Posiciones : Q;
  Valor_Portafolio : Q
}.

(** [for b, q in pos.items(): valor_pos += q * prices_mid.get(b, 0.0)]. *)
Definition valor_posiciones (prices_mid pos : dict) : Q :=
  fold_left (fun acc bq => acc + snd bq * dict_get_or prices_mid (fst bq) 0) pos 0.

Definition leaderboard_row (st : state) (prices_mid : dict) (t : team_t) : row :=
  let '(pos, cash) := team_positions_and_cash st (team_name t) in
  let valor_pos := valor_posiciones prices_mid pos in
  mkRow (team_name t) cash valor_pos (cash + valor_pos).

Definition resolve_ronda (st : state) (ronda : option Z) : Z :=
  match ronda with
  | None => ronda_actual (game st)
  | Some r => r
  end.

(** The list [rows] built by the loop over the teams, before sorting. *)
Definition leaderboard_rows (st : state) (ronda : option Z) : list row :=
  let prices_mid := get_prices_dict st (resolve_ronda st ronda) in
  map (leaderboard_row st prices_mid) (teams st).

(** [a] may stand before [b] in a frame sorted by [Valor_Portafolio],
    [ascending=False]. *)
Definition desc (a b : row) : Prop := Valor_Portafolio b <= Valor_Portafolio a.

(** What [DataFrame.sort_values(col, ascending=False)] is relied on for.  The
    call passes no [kind], so pandas uses its default ["quicksort"], which it
    documents as not stable: the contract fixes the output up to the order of
    rows with equal keys. *)
Record sort_values_contract (sort_values : list row -> list row) : Prop := {
  sort_values_perm : forall l, Permutation l (sort_values l);
  sort_values_desc : forall l, StronglySorted desc (sort_values l)
}.

Definition compute_leaderboard (sort_values : list row -> list row)
           (st : state) (ronda : option Z) : list row :=
  let rows := leaderboard_rows st ronda in
  match rows with
  | [] => []
  | _ => sort_values rows
  end.

(** Two sorts meeting the contract: insertion of each row, from the last to
    the first, before the first row of the sorted tail that [before] selects. *)
Fixpoint insert_row (before : row -> row -> bool) (x : row) (l : list row) : list row :=
  match l with
  | [] => [x]
  | y :: rest => if before x y then x :: y :: rest else y :: insert_row before x rest
  end.

Definition insertion_sort (before : row -> row -> bool) (l : list row) : list row :=
  fold_right (insert_row before) [] l.

(** Ties keep the input order. *)
Definition sort_ties_stable : list row -> list row :=
  insertion_sort (fun x y => Qle_bool (Valor_Portafolio y) (Valor_Portafolio x)).


(* ------------------------------------------------------------------ *)
(** ** The moderator's buttons (round state machine)                    *)
(* ------------------------------------------------------------------ *)

Inductive boton : Type :=
| BtnPublicar        (* "Publicar precios de ronda" *)
| BtnCerrarTrading   (* "Cerrar TRADING (TRADING_OFF)" *)
| BtnAvanzar         (* "Avanzar a la siguiente ronda" *)
| BtnFinalizar.      (* "Finalizar juego (FIN)" *)

(** What a click does: the button is not on the page, the script run ends in
    an exception (nothing is saved), or the document becomes [st']. *)
Inductive click_t : Type :=
| NotOffered
| Crashed (e : exn)
| Done (st' : state).

Definition ui_moderator_click (st : state) (now : string) (b : boton) : click_t :=
  let g := game st in
  match b with
  | BtnPublicar =>
      match bonds st with
      | [] => Done st        (* st.error("Primero carga un escenario con bonos.") *)
      | _ =>
          match publish_prices_for_round st now with
          | Ok st' => Done st'
          | Raise e => Crashed e
          end
      end
  | BtnCerrarTrading => Done (with_game st (set_estado g TRADING_OFF))
  | BtnAvanzar =>
      if estado_eqb (estado g) TRADING_OFF then
        if (ronda_actual g <? rondas_totales g)%Z
        then Done (with_game st (set_estado (set_ronda_actual g (ronda_actual g + 1)) LOBBY))
        else NotOffered
      else NotOffered
  | BtnFinalizar =>
      if estado_eqb (estado g) TRADING_OFF then
        if (ronda_actual g <? rondas_totales g)%Z
        then NotOffered
        else Done (with_game st (set_estado g FIN))
      else NotOffered
  end.

(** The "Rondas totales" number input ([min_value=1], [max_value=20]): a
    parameter edit, not a phase transition. *)
Definition ui_moderator_set_rondas_totales (st : state) (n : Z) : option state :=
  if ((1 <=? n) && (n <=? 20))%Z
  then Some (with_game st (set_rondas_totales (game st) n))
  else None.

(** States reached from [st0] by clicking the moderator's buttons. *)
Inductive reachable (st0 : state) : state -> Prop :=
| reach_refl : reachable st0 st0
| reach_click st now b st' :
    reachable st0 st -> ui_moderator_click st now b = Done st' -> reachable st0 st'.

Definition round_in_range (st : state) : Prop :=
  (1 <= ronda_actual (game st) <= rondas_totales (game st))%Z.

(* ------------------------------------------------------------------ *)
(** ** The specification's wording, for comparison with the code        *)
(* ------------------------------------------------------------------ *)

(** The spec's reading of the reconstruction, to compare with the fold of
    [team_positions_and_cash]. *)

Fixpoint Qsum (xs : list Q) : Q :=
  match xs with
  | [] => 0
  | x :: rest => x + Qsum rest
  end.

Definition side_eqb (a b : side_t) : bool :=
  match a, b with
  | BUY, BUY | SELL, SELL => true
  | _, _ => false
  end.

Definition of_team (tid : string) (o : order_t) : bool := String.eqb (o_team_id o) tid.

Definition ledger_of (tid : string) (l : ledger_t) : bool := String.eqb (l_team_id l) tid.

Definition is_trade (tid bond_id : string) (sd : side_t) (o : order_t) : bool :=
  of_team tid o && String.eqb (o_bond_id o) bond_id && side_eqb (side o) sd.

(** Cash effect of one order: [-(qty*price + fees)] for a BUY,
    [+(qty*price - fees)] for a SELL. *)
Definition order_cash_effect (o : order_t) : Q :=
  match side o with
  | BUY => - (qty o * price_exec o + fees o)
  | SELL => qty o * price_exec o - fees o
  end.

Definition spec_cash (st : state) (team : team_t) : Q :=
  cash_inicial team
  + Qsum (map cash_delta (filter (ledger_of (team_id team)) (ledger st)))
  + Qsum (map order_cash_effect (filter (of_team (team_id team)) (orders st))).

Definition spec_position (st : state) (team : team_t) (bond_id : string) : Q :=
  Qsum (map qty (filter (is_trade (team_id team) bond_id BUY) (orders st)))
  - Qsum (map qty (filter (is_trade (team_id team) bond_id SELL) (orders st))).

(** Commission on a fill of [q] units at [px]. *)
Definition fees_of (st : state) (q px : Q) : Q :=
  (q * px) * (comision_bps (game st) / 10000).

(** The order record a fill appends. *)
Definition fill (st : state) (now tid bond_id : string) (sd : side_t) (q px : Q) : order_t :=
  mkOrder now tid bond_id sd q px (fees_of st q px) (ronda_actual (game st)).

(** The price set computed for the current round. *)
Definition new_prices (st : state) (now : string) : result (list price_t) :=
  map_result (price_point (game st) (events st) now) (bonds st).

(** The price as the specification words it: [max(0.01, sum_{k=1..N}
    C/(1+i)^k + V/(1+i)^N)]. *)
Definition spec_price_mid (V c : Q) (f : Z) (m y q : Q) (e : Z) : Q :=
  let remaining := Qmax 0 (m - inject_Z e * q) in
  let N := Z.max 1 (Qceiling (remaining / (1 / inject_Z f))) in
  let C := V * c / inject_Z f in
  let i := y / inject_Z f in
  Qmax (1 # 100)
    (Qsum (map (fun k => C / (1 + i) ^ Z.of_nat k) (seq 1 (Z.to_nat N)))
     + V / (1 + i) ^ N).

(** Sum of the yield deltas of the MARKET events of round [r]. *)
Definition market_delta (evs : list event_t) (r : Z) : Q :=
  Qsum (map delta_tasa_bps
          (filter (fun e => (e_round e =? r)%Z && tipo_eqb (tipo e) MARKET) evs)).

(** Sum of the impacts of the IDIOS events of round [r] naming [bond_id]. *)
Definition idios_delta (evs : list event_t) (r : Z) (bond_id : string) : Q :=
  Qsum (map impacto_bps
          (filter (fun e => (e_round e =? r)%Z && tipo_eqb (tipo e) IDIOS
                            && String.eqb (py_str (e_bond_id e)) bond_id) evs)).

(** What one event adds, in bps, to the yield of [bond_id] in round [r]. *)
Definition event_contribution (e : event_t) (r : Z) (bond_id : string) : Q :=
  if (e_round e =? r)%Z then
    match tipo e with
    | MARKET => delta_tasa_bps e
    | IDIOS => if String.eqb (py_str (e_bond_id e)) bond_id then impacto_bps e else 0
    end
  else 0.

(** The price point the leaderboard reads for [(r, bond_id)]: the latest one
    stored (a dict comprehension keeps the last value of a repeated key). *)
Definition published_mid (st : state) (r : Z) (bond_id : string) : option price_t :=
  find (fun p => String.eqb (p_bond_id p) bond_id)
       (rev (filter (fun p => (p_ronda p =? r)%Z) (prices st))).

(* ------------------------------------------------------------------ *)
(** ** Example documents                                                *)
(* ------------------------------------------------------------------ *)

(** The example scenario of the moderator panel. *)
Definition ex_bonds : list bond_t :=
  [ bond_B1;
    mkBond "B2" "Corp Alfa 2030" 1000 (9 # 100) 2 4 150 true (Some 1020) "Corporativo AAA";
    mkBond "B3" "Corp Beta 2027" 1000 (7 # 100) 4 2 220 false None "Corporativo BB" ].

Definition ex_events : list event_t :=
  [ mkEvent 1 MARKET None 75 0 "Shock de tasas +75 bps" false;
    mkEvent 2 MARKET None (-40) 0 "Mejora macro -40 bps" false;
    mkEvent 3 IDIOS (Some "B3"%string) 0 120 "Riesgo credito B3 +120 bps" false ].

Definition with_scenario (st : state) (bs : list bond_t) (es : list event_t) : state :=
  mkState (game st) bs es (prices st) (teams st) (orders st) (ledger st).

Definition with_ledger (st : state) (ls : list ledger_t) : state :=
  mkState (game st) (bonds st) (events st) (prices st) (teams st) (orders st) ls.

(** A fresh game with the example scenario and two registered teams. *)
Definition st_lobby : state :=
  let s0 := with_scenario (load_state_default "MB-001" "t0") ex_bonds ex_events in
  let s1 := fst (team_register s0 "t1" "Alfa" "") in
  fst (team_register s1 "t2" "Beta" "").

Definition ok_state (r : result state) (dflt : state) : state :=
  match r with
  | Ok s => s
  | Raise _ => dflt
  end.

(** The price a pricing call returned. *)
Definition ok_value (r : result Q) : Q :=
  match r with
  | Ok v => v
  | Raise _ => 0
  end.

Definition ok_order (r : result (state * (bool * mensaje))) (dflt : state) : state :=
  match r with
  | Ok (s, _) => s
  | Raise _ => dflt
  end.

(** [st_lobby] after the prices of round 1 are published. *)
Definition st_trading : state :=
  Eval vm_compute in ok_state (publish_prices_for_round st_lobby "t3") st_lobby.

(** [st_trading] after three fills and two manual ledger entries. *)
Definition st_traded : state :=
  Eval vm_compute in
    (let s1 := ok_order (exec_order st_trading "t4" "Alfa" BUY "B1" 10) st_trading in
     let s2 := ok_order (exec_order s1 "t5" "Alfa" SELL "B1" 4) s1 in
     let s3 := ok_order (exec_order s2 "t6" "Beta" BUY "B2" 5) s2 in
     with_ledger s3 [mkLedger "T1" 500 "ajuste manual"; mkLedger "T2" (-250) "multa"]).

Definition team_Alfa : team_t := mkTeam "T1" "Alfa" "" true "t1" 1000000.

Definition team_Beta : team_t := mkTeam "T2" "Beta" "" true "t2" 1000000.

(** The example bond B1 with a credit spread of [-20000] bps. *)
Definition bond_singular : bond_t :=
  mkBond "B1" "Bono Tesoro 2028" 1000 (8 # 100) 2 3 (-20000 # 1) false None "Soberano".

Definition st_singular : state :=
  with_scenario (load_state_default "MB-002" "t0") [bond_singular] [].

Definition done_state (c : click_t) (dflt : state) : state :=
  match c with
  | Done s => s
  | _ => dflt
  end.

(** [st_traded] one round later: trading closed, round advanced. *)
Definition st_round2_lobby : state :=
  Eval vm_compute in
    (let s1 := done_state (ui_moderator_click st_traded "t7" BtnCerrarTrading) st_traded in
     done_state (ui_moderator_click s1 "t8" BtnAvanzar) s1).

(** ... and the prices of round 2 published. *)
Definition st_round2 : state :=
  Eval vm_compute in ok_state (publish_prices_for_round st_round2_lobby "t9") st_round2_lobby.

(** A sequence of clicks, each with its timestamp; [None] when one of them
    is not offered or crashes. *)
Fixpoint run_clicks (st : state) (l : list (string * boton)) : option state :=
  match l with
  | [] => Some st
  | (now, b) :: rest =>
      match ui_moderator_click st now b with
      | Done s => run_clicks s rest
      | _ => None
      end
  end.

(** Three rounds played from [st_lobby] up to the close of trading of round 3. *)
Definition clicks_to_round3 : list (string * boton) :=
  [ ("t3", BtnPublicar); ("t7", BtnCerrarTrading); ("t8", BtnAvanzar);
    ("t9", BtnPublicar); ("t10", BtnCerrarTrading); ("t11", BtnAvanzar);
    ("t12", BtnPublicar); ("t13", BtnCerrarTrading) ]%string.

Definition st_round3_closed : state :=
  Eval vm_compute in
    (match run_clicks st_lobby clicks_to_round3 with
     | Some s => s
     | None => st_lobby
     end).

(** The moderator then lowers "Rondas totales" to 2. *)
Definition st_total_lowered : state :=
  Eval vm_compute in
    (match ui_moderator_set_rondas_totales st_round3_closed 2 with
     | Some s => s
     | None => st_round3_closed
     end).

(* ------------------------------------------------------------------ *)
(** ** Default events (wizard)                                          *)
(* ------------------------------------------------------------------ *)

(** [max(bonds, key=lambda b: float(b.spread_bps))] over [best :: bs]: the
    running best is replaced only by a strictly larger key, so the first bond
    of largest spread is returned. *)
Fixpoint max_by_spread (best : bond_t) (bs : list bond_t) : bond_t :=
  match bs with
  | [] => best
  | b :: rest =>
      if Qltb (spread_bps best) (spread_bps b)
      then max_by_spread b rest
      else max_by_spread best rest
  end.

(** [bond_target.get("bond_id") if bond_target else "B1"]. *)
Definition wizard_target (bs : list bond_t) : string :=
  match bs with
  | [] => "B1"
  | b :: rest => b_bond_id (max_by_spread b rest)
  end.

Definition with_events (st : state) (es : list event_t) : state :=
  mkState (game st) (bonds st) es (prices st) (teams st) (orders st) (ledger st).

Definition ensure_events_from_wizard (st : state) : state :=
  match events st with
  | _ :: _ => st
  | [] =>
      with_events st
        [ mkEvent 1 MARKET None 75 0 "Shock de tasas global +75 bps" false;
          mkEvent 2 MARKET None (-40) 0 "Mejora macro (-40 bps)" false;
          mkEvent 3 IDIOS (Some (wizard_target (bonds st))) 0 120
                  "Riesgo crédito específico +120 bps" false ]
  end.

(* ------------------------------------------------------------------ *)
(** ** Registration and entry in the participant panel                  *)
(* ------------------------------------------------------------------ *)

(** Whitespace of [str.strip()] among the ASCII characters: tab, line feed,
    vertical tab, form feed, carriage return, the separators 28 to 31 and the
    space. *)
Definition is_space (a : Ascii.ascii) : bool :=
  let n := Ascii.nat_of_ascii a in
  ((9 <=? n) && (n <=? 13) || (28 <=? n) && (n <=? 32))%nat.

Fixpoint lstrip (s : string) : string :=
  match s with
  | EmptyString => EmptyString
  | String a rest => if is_space a then lstrip rest else s
  end.

Fixpoint rstrip (s : string) : string :=
  match s with
  | EmptyString => EmptyString
  | String a rest =>
      match rstrip rest with
      | EmptyString => if is_space a then EmptyString else String a EmptyString
      | rest' => String a rest'
      end
  end.

(** [s.strip()] on ASCII strings. *)
Definition strip_ascii (s : string) : string := rstrip (lstrip s).

Section ParticipantEntry.

(** [str.strip]: white space beyond ASCII is not fixed here. *)
Variable strip : string -> string.

(** The form "Registrar/Ingresar" submitted with [team_name] and [pin_]:
    registration when [team_get] finds nobody of that (unstripped) name, then
    the test that sets [st.session_state["team_current"]].  Returns the
    document and the session's current team. *)
Definition ui_participant_ingresar (st : state) (now team_name_ pin_ : string)
           (team_current : option string) : state * option string :=
  if String.eqb (strip team_name_) "" then (st, team_current)
  else
    let st1 :=
      match team_get st team_name_ with
      | None => fst (team_register st now (strip team_name_) (strip pin_))
      | Some _ => st
      end in
    match team_get st1 team_name_ with
    | Some t =>
        if String.eqb (pin t) "" || String.eqb (pin t) pin_
        then (st1, Some team_name_)
        else (st1, team_current)
    | None => (st1, team_current)
    end.

End ParticipantEntry.

(* ------------------------------------------------------------------ *)
(** ** Invariants of a game document                                    *)
(* ------------------------------------------------------------------ *)

(** No two teams share a display name. *)
Definition names_unique (st : state) : Prop := NoDup (map team_name (teams st)).

(** The identifier [f"T{n}"]. *)
Definition team_id_of (n : nat) : string := String.append "T" (string_of_nat n).

(** The team record [team_register] builds. *)
Definition new_team (st : state) (now name pin_ : string) : team_t :=
  mkTeam (team_id_of (List.length (teams st) + 1)) name pin_ true now
         (g_cash_inicial (game st)).

(** Team identifiers are [T1, T2, ...] in registration order. *)
Definition ids_sequential (st : state) : Prop :=
  map team_id (teams st) = map team_id_of (seq 1 (List.length (teams st))).

(** Every order and ledger entry carries the identifier of a registered
    team. *)
Definition history_of_teams (st : state) : Prop :=
  (forall o, In o (orders st) -> In (o_team_id o) (map team_id (teams st)))
  /\ (forall l, In l (ledger st) -> In (l_team_id l) (map team_id (teams st))).

(** At most one price point per (round, bond). *)
Definition price_key (p : price_t) : Z * string := (p_ronda p, p_bond_id p).

Definition price_keys_unique (st : state) : Prop := NoDup (map price_key (prices st)).

(** The team named [name] has no negative cash and no negative holding. *)
Definition solvent (st : state) (name : string) : Prop :=
  0 <= snd (team_positions_and_cash st name)
  /\ forall b, 0 <= dict_get_or (fst (team_positions_and_cash st name)) b 0.

(** The execution price of a side at a price point. *)
Definition px_of (sd : side_t) (p : price_t) : Q :=
  match sd with
  | BUY => precio_ask p
  | SELL => precio_bid p
  end.

(** [st_lobby] with a third team, "Gama", protected by the PIN "1234". *)
Definition st_with_pin : state := fst (team_register st_lobby "t30" "Gama" "1234").

(* ------------------------------------------------------------------ *)
(** ** Registered teams and published prices, as stored                 *)
(* ------------------------------------------------------------------ *)

(** [team] is the registered team named [name]: an element of the stored
    team list with that name, the first one of that name. *)
Definition registered_as (st : state) (name : string) (team : team_t) : Prop :=
  exists pre post, teams st = pre ++ team :: post
                   /\ team_name team = name
                   /\ Forall (fun t => team_name t <> name) pre.

(** [p] is the price published for round [r] and bond [b]: an element of the
    stored price points with that round and that bond, the first such. *)
Definition published_for (st : state) (r : Z) (b : string) (p : price_t) : Prop :=
  exists pre post, prices st = pre ++ p :: post
                   /\ p_ronda p = r /\ p_bond_id p = b
                   /\ Forall (fun p' => ~ (p_ronda p' = r /\ p_bond_id p' = b)) pre.

(** No stored price point is for round [r] and bond [b]. *)
Definition nothing_published_for (st : state) (r : Z) (b : string) : Prop :=
  forall p, In p (prices st) -> ~ (p_ronda p = r /\ p_bond_id p = b).


(** The fifth stored price point of [st_round2]: bond B2 in round 2. *)
Definition px_round2_B2 : price_t :=
  Eval vm_compute in
    match nth_error (prices st_round2) 4 with
    | Some p => p
    | None => mkPrice 0 "" 0 0 0 0 ""
    end.


(* ================================================================== *)
(** * Properties                                                        *)
(* ================================================================== *)

(* ------------------------------------------------------------------ *)
(** ** Numbers, outcomes and dictionaries                               *)
(* ------------------------------------------------------------------ *)

Lemma Qltb_lt (a b : Q) : Qltb a b = true <-> a < b.
Proof.
  unfold Qltb. rewrite negb_true_iff. split; intros H.
  - apply Qnot_le_lt. intros Hle. apply Qle_bool_iff in Hle. congruence.
  - destruct (Qle_bool b a) eqn:E; [|reflexivity].
    apply Qle_bool_iff in E. exfalso. exact (Qlt_not_le _ _ H E).
Qed.

Lemma Qltb_ge (a b : Q) : Qltb a b = false <-> b <= a.
Proof.
  unfold Qltb. rewrite negb_false_iff. apply Qle_bool_iff.
Qed.

Lemma py_max_lower (a b : Q) : a <= py_max a b.
Proof.
  unfold py_max. destruct (Qltb a b) eqn:E.
  - apply Qlt_le_weak, Qltb_lt, E.
  - apply Qle_refl.
Qed.

Lemma py_div_ok (a b : Q) : ~ b == 0 -> py_div a b = Ok (a / b).
Proof.
  intros H. unfold py_div. destruct (Qeq_bool b 0) eqn:E; [|reflexivity].
  apply Qeq_bool_eq in E. contradiction.
Qed.

Lemma py_div_zero (a b : Q) : b == 0 -> py_div a b = Raise ZeroDivisionError.
Proof.
  intros H. unfold py_div. now rewrite (Qeq_eq_bool _ _ H).
Qed.

Lemma dict_get_set (d : dict) (k k' : string) (v : Q) :
  dict_get (dict_set d k v) k' = if String.eqb k k' then Some v else dict_get d k'.
Proof.
  induction d as [|[k0 v0] d IH]; simpl.
  - reflexivity.
  - destruct (String.eqb_spec k0 k) as [->|Hne]; simpl.
    + destruct (String.eqb_spec k k'); reflexivity.
    + rewrite IH. destruct (String.eqb_spec k0 k') as [->|]; [|reflexivity].
      destruct (String.eqb_spec k k'); [congruence|reflexivity].
Qed.

Lemma dict_get_or_set (d : dict) (k k' : string) (v dflt : Q) :
  dict_get_or (dict_set d k v) k' dflt
  = if String.eqb k k' then v else dict_get_or d k' dflt.
Proof.
  unfold dict_get_or. rewrite dict_get_set. now destruct (String.eqb k k').
Qed.

(* ------------------------------------------------------------------ *)
(** ** Reconstruction of positions and cash                             *)
(* ------------------------------------------------------------------ *)

Lemma fold_ledger_cash (tid : string) (ls : list ledger_t) (c : Q) :
  fold_left (ledger_step tid) ls c
  == c + Qsum (map cash_delta (filter (ledger_of tid) ls)).
Proof.
  revert c. induction ls as [|l ls IH]; intros c; simpl.
  - ring.
  - rewrite IH. unfold ledger_step, ledger_of.
    destruct (String.eqb (l_team_id l) tid); simpl; ring.
Qed.

Lemma order_step_eq (tid : string) (pos : dict) (c : Q) (o : order_t) :
  order_step tid (pos, c) o
  = if of_team tid o then
      match side o with
      | BUY => (dict_set pos (o_bond_id o) (dict_get_or pos (o_bond_id o) 0 + qty o),
                c - (qty o * price_exec o + fees o))
      | SELL => (dict_set pos (o_bond_id o) (dict_get_or pos (o_bond_id o) 0 - qty o),
                 c + (qty o * price_exec o - fees o))
      end
    else (pos, c).
Proof.
  unfold order_step, of_team. now destruct (String.eqb (o_team_id o) tid).
Qed.

Lemma fold_orders_cash (tid : string) (os : list order_t) (pos : dict) (c : Q) :
  snd (fold_left (order_step tid) os (pos, c))
  == c + Qsum (map order_cash_effect (filter (of_team tid) os)).
Proof.
  revert pos c. induction os as [|o os IH]; intros pos c.
  - simpl. ring.
  - cbn [fold_left filter]. rewrite order_step_eq. destruct (of_team tid o); [|apply IH].
    cbn [map Qsum]. unfold order_cash_effect at 1.
    destruct (side o); rewrite IH; ring.
Qed.

Lemma fold_orders_pos (tid : string) (os : list order_t) (pos : dict) (c : Q) (b : string) :
  dict_get_or (fst (fold_left (order_step tid) os (pos, c))) b 0
  == dict_get_or pos b 0
     + (Qsum (map qty (filter (is_trade tid b BUY) os))
        - Qsum (map qty (filter (is_trade tid b SELL) os))).
Proof.
  revert pos c. induction os as [|o os IH]; intros pos c.
  - simpl. ring.
  - cbn [fold_left filter]. rewrite order_step_eq.
    assert (HB : is_trade tid b BUY o
                 = of_team tid o && String.eqb (o_bond_id o) b && side_eqb (side o) BUY)
      by reflexivity.
    assert (HS : is_trade tid b SELL o
                 = of_team tid o && String.eqb (o_bond_id o) b && side_eqb (side o) SELL)
      by reflexivity.
    rewrite HB, HS. clear HB HS.
    destruct (of_team tid o); cbn [andb]; [|apply IH].
    destruct (side o); cbn [side_eqb]; rewrite ?andb_true_r, ?andb_false_r;
      rewrite IH, dict_get_or_set;
      destruct (String.eqb_spec (o_bond_id o) b) as [->|]; cbn [map Qsum]; ring.
Qed.

Lemma fold_orders_keys (tid : string) (os : list order_t) (pos : dict) (c : Q) (b : string) :
  dict_get (fst (fold_left (order_step tid) os (pos, c))) b = None
  <-> dict_get pos b = None
      /\ forall o, In o os -> of_team tid o = true -> o_bond_id o <> b.
Proof.
  revert pos c. induction os as [|o os IH]; intros pos c.
  - simpl. split; [intros H; split; [exact H|intros o []]|intros [H _]; exact H].
  - cbn [fold_left In]. rewrite order_step_eq. destruct (of_team tid o) eqn:Et.
    + assert (Hstep : forall v c',
                dict_get (fst (fold_left (order_step tid) os
                                 (dict_set pos (o_bond_id o) v, c'))) b = None
                <-> dict_get pos b = None
                    /\ forall o', o = o' \/ In o' os ->
                                  of_team tid o' = true -> o_bond_id o' <> b).
      { intros v c'. rewrite IH, dict_get_set. split.
        - intros [Hg Hos]. destruct (String.eqb_spec (o_bond_id o) b) as [|Hne];
            [discriminate|]. split; [exact Hg|].
          intros o' [<-|Hin] Ho'; [exact Hne|now apply Hos].
        - intros [Hg Hos]. split.
          + destruct (String.eqb_spec (o_bond_id o) b) as [Heq|]; [|exact Hg].
            exfalso. exact (Hos o (or_introl eq_refl) Et Heq).
          + intros o' Hin Ho'. apply Hos; [now right|exact Ho']. }
      destruct (side o); apply Hstep.
    + rewrite IH. split; intros [Hg Hos]; (split; [exact Hg|]).
      * intros o' [<-|Hin] Ho'; [congruence|now apply Hos].
      * intros o' Hin Ho'. apply Hos; [now right|exact Ho'].
Qed.

Lemma team_get_first (st : state) (name : string) (pre post : list team_t)
      (team : team_t) :
  teams st = pre ++ team :: post ->
  team_name team = name ->
  Forall (fun t => team_name t <> name) pre ->
  team_get st name = Some team.
Proof.
  intros Hts Hn Hpre. unfold team_get. rewrite Hts. clear Hts.
  induction Hpre as [|t pre Ht Hpre IH]; simpl.
  - rewrite <- Hn, String.eqb_refl. reflexivity.
  - destruct (String.eqb (team_name t) name) eqn:E.
    + apply String.eqb_eq in E. contradiction.
    + exact IH.
Qed.

Lemma team_get_first_inv (st : state) (name : string) (team : team_t) :
  team_get st name = Some team ->
  exists pre post, teams st = pre ++ team :: post
                   /\ team_name team = name
                   /\ Forall (fun t => team_name t <> name) pre.
Proof.
  unfold team_get. induction (teams st) as [|t ts IH]; simpl; [discriminate|].
  destruct (String.eqb (team_name t) name) eqn:E.
  - intros H. injection H as <-. apply String.eqb_eq in E.
    exists [], ts. repeat split; [exact E|constructor].
  - intros H. destruct (IH H) as (pre & post & Hts & Hn & Hpre).
    exists (t :: pre), post. rewrite Hts. repeat split; [exact Hn|].
    constructor; [|exact Hpre]. apply String.eqb_neq. exact E.
Qed.

Lemma reconstruction_of_found_team (st : state) (name : string) (team : team_t) :
  team_get st name = Some team ->
  snd (team_positions_and_cash st name) == spec_cash st team
  /\ (forall b, dict_get_or (fst (team_positions_and_cash st name)) b 0
                == spec_position st team b)
  /\ (forall b, dict_get (fst (team_positions_and_cash st name)) b = None
                <-> forall o, In o (orders st) -> of_team (team_id team) o = true ->
                              o_bond_id o <> b)
  /\ (forall st', teams st' = teams st -> orders st' = orders st ->
                  ledger st' = ledger st ->
                  team_positions_and_cash st' name = team_positions_and_cash st name).
Proof.
  intros Hteam. unfold team_positions_and_cash. rewrite Hteam.
  repeat split.
  - rewrite fold_orders_cash, fold_ledger_cash. unfold spec_cash. ring.
  - intros b. rewrite fold_orders_pos. unfold spec_position, dict_get_or. simpl. ring.
  - intros H. apply fold_orders_keys in H. apply H.
  - intros H. apply fold_orders_keys. split; [reflexivity|exact H].
  - intros st' Ht Ho Hl. unfold team_get. rewrite Ht, Ho, Hl.
    fold (team_get st name). rewrite Hteam. reflexivity.
Qed.

Lemma team_get_registered (st : state) (name : string) (team : team_t) :
  team_get st name = Some team <-> registered_as st name team.
Proof.
  split.
  - apply team_get_first_inv.
  - intros (pre & post & Hts & Hn & Hpre).
    exact (team_get_first st name pre post team Hts Hn Hpre).
Qed.

Lemma unique_name_registered (st : state) (name : string) (team : team_t) :
  names_unique st -> In team (teams st) -> team_name team = name ->
  registered_as st name team.
Proof.
  unfold names_unique, registered_as. intros Hnd Hin Hn.
  destruct (in_split _ _ Hin) as (pre & post & Hl).
  exists pre, post. repeat split; try assumption.
  rewrite Hl, map_app in Hnd. simpl in Hnd. apply NoDup_remove_2 in Hnd.
  apply Forall_forall. intros t Ht Hname. apply Hnd.
  apply in_or_app. left. rewrite Hn, <- Hname. apply in_map. exact Ht.
Qed.

(** C1. Let [team] be a registered team: an element of the stored team list
    whose name is [name], where names are unique (as registration keeps
    them) or, in a document that holds several teams of that name, [team] is
    the first of them.  Called on [name], [team_positions_and_cash]
    reconstructs the books of that very team: the cash is the team's initial
    cash plus the sum of the ledger deltas carrying the team's id plus the
    cash effect of each of the team's orders ([-(qty*price + fees)] for a BUY,
    [+(qty*price - fees)] for a SELL); the positions hold, for each bond id,
    the BUY quantities minus the SELL quantities of the team's orders for that
    bond, with an entry exactly for the bonds the team has traded.  The
    result is a function of the stored teams, orders and ledger alone: two
    documents with the same history give the same result, and the function
    returns no document (nothing is written). *)
Theorem team_positions_and_cash_spec (st : state) (name : string) (team : team_t) :
  In team (teams st) ->
  team_name team = name ->
  names_unique st \/ registered_as st name team ->
  snd (team_positions_and_cash st name) == spec_cash st team
  /\ (forall b, dict_get_or (fst (team_positions_and_cash st name)) b 0
                == spec_position st team b)
  /\ (forall b, dict_get (fst (team_positions_and_cash st name)) b = None
                <-> forall o, In o (orders st) -> of_team (team_id team) o = true ->
                              o_bond_id o <> b)
  /\ (forall st', teams st' = teams st -> orders st' = orders st ->
                  ledger st' = ledger st ->
                  team_positions_and_cash st' name = team_positions_and_cash st name).
Proof.
  intros Hin Hn Hfirst. apply reconstruction_of_found_team.
  apply team_get_registered.
  destruct Hfirst as [Hu|Hr]; [|exact Hr].
  now apply unique_name_registered.
Qed.

Lemma team_positions_and_cash_spec_witness :
  teams st_traded = [team_Alfa; team_Beta]
  /\ snd (team_positions_and_cash st_traded "Beta") == spec_cash st_traded team_Beta
  /\ dict_get_or (fst (team_positions_and_cash st_traded "Beta")) "B2" 0 == 5
  /\ ~ snd (team_positions_and_cash st_traded "Beta") == spec_cash st_traded team_Alfa.
Proof.
  assert (Hin : In team_Beta (teams st_traded)) by (right; left; reflexivity).
  assert (Hu : names_unique st_traded).
  { unfold names_unique. cbn. repeat constructor; cbn; intuition discriminate. }
  destruct (team_positions_and_cash_spec st_traded "Beta" team_Beta Hin eq_refl
              (or_introl Hu)) as (Hcash & Hpos & _).
  split; [reflexivity|].
  split; [exact Hcash|].
  split; [rewrite Hpos; vm_compute; reflexivity|].
  rewrite Hcash. vm_compute. discriminate.
Defined.

(* ------------------------------------------------------------------ *)
(** ** Order execution                                                  *)
(* ------------------------------------------------------------------ *)

Lemma can_exec_order_no_price (st : state) (name : string) (sd : side_t) (b : string) (q : Q) :
  find_price st (ronda_actual (game st)) b = None ->
  can_exec_order st name sd b q = (false, MsgNoPrecio, 0, 0).
Proof.
  intros H. unfold can_exec_order. now rewrite H.
Qed.

Lemma can_exec_order_buy (st : state) (name b : string) (q : Q) (p : price_t) :
  find_price st (ronda_actual (game st)) b = Some p ->
  can_exec_order st name BUY b q
  = if Qltb (snd (team_positions_and_cash st name))
            (q * precio_ask p + fees_of st q (precio_ask p))
    then (false, MsgCashInsuficiente, precio_ask p, fees_of st q (precio_ask p))
    else (true, MsgOK, precio_ask p, fees_of st q (precio_ask p)).
Proof.
  intros H. unfold can_exec_order. rewrite H.
  now destruct (team_positions_and_cash st name).
Qed.

Lemma can_exec_order_sell (st : state) (name b : string) (q : Q) (p : price_t) :
  find_price st (ronda_actual (game st)) b = Some p ->
  can_exec_order st name SELL b q
  = if Qltb (dict_get_or (fst (team_positions_and_cash st name)) b 0) q
    then (false, MsgNoPosee, precio_bid p, fees_of st q (precio_bid p))
    else (true, MsgOK, precio_bid p, fees_of st q (precio_bid p)).
Proof.
  intros H. unfold can_exec_order. rewrite H.
  now destruct (team_positions_and_cash st name).
Qed.

Lemma exec_order_accepted (st : state) (now name b : string) (sd : side_t) (q px f : Q)
      (team : team_t) :
  team_get st name = Some team ->
  can_exec_order st name sd b q = (true, MsgOK, px, f) ->
  exec_order st now name sd b q
  = Ok (with_orders st (orders st ++ [mkOrder now (team_id team) b sd q px f
                                              (ronda_actual (game st))]),
        (true, MsgEjecutada sd q b px f)).
Proof.
  intros Ht Hc. unfold exec_order. rewrite Hc. simpl. now rewrite Ht.
Qed.

Lemma exec_order_rejected (st : state) (now name b : string) (sd : side_t) (q px f : Q)
      (msg : mensaje) :
  can_exec_order st name sd b q = (false, msg, px, f) ->
  exec_order st now name sd b q = Ok (st, (false, msg)).
Proof.
  intros Hc. unfold exec_order. now rewrite Hc.
Qed.

Lemma can_exec_order_buy_iff (st : state) (name b : string) (q : Q) (p : price_t) :
  find_price st (ronda_actual (game st)) b = Some p ->
  let cost := q * precio_ask p + fees_of st q (precio_ask p) in
  (can_exec_order st name BUY b q
   = (false, MsgCashInsuficiente, precio_ask p, fees_of st q (precio_ask p))
   <-> snd (team_positions_and_cash st name) < cost)
  /\ (can_exec_order st name BUY b q = (true, MsgOK, precio_ask p, fees_of st q (precio_ask p))
      <-> ~ snd (team_positions_and_cash st name) < cost).
Proof.
  intros Hp cost. rewrite (can_exec_order_buy st name b q p Hp). fold cost.
  destruct (Qltb (snd (team_positions_and_cash st name)) cost) eqn:E.
  - apply Qltb_lt in E. split; split; intros H;
      [exact E | reflexivity | discriminate | contradiction].
  - apply Qltb_ge in E. split; split; intros H.
    + discriminate.
    + exfalso. exact (Qlt_not_le _ _ H E).
    + intros Hlt. exact (Qlt_not_le _ _ Hlt E).
    + reflexivity.
Qed.

Lemma can_exec_order_sell_iff (st : state) (name b : string) (q : Q) (p : price_t) :
  find_price st (ronda_actual (game st)) b = Some p ->
  let held := dict_get_or (fst (team_positions_and_cash st name)) b 0 in
  (can_exec_order st name SELL b q
   = (false, MsgNoPosee, precio_bid p, fees_of st q (precio_bid p))
   <-> held < q)
  /\ (can_exec_order st name SELL b q = (true, MsgOK, precio_bid p, fees_of st q (precio_bid p))
      <-> ~ held < q).
Proof.
  intros Hp held. rewrite (can_exec_order_sell st name b q p Hp). fold held.
  destruct (Qltb held q) eqn:E.
  - apply Qltb_lt in E. split; split; intros H;
      [exact E | reflexivity | discriminate | contradiction].
  - apply Qltb_ge in E. split; split; intros H.
    + discriminate.
    + exfalso. exact (Qlt_not_le _ _ H E).
    + intros Hlt. exact (Qlt_not_le _ _ Hlt E).
    + reflexivity.
Qed.

Lemma find_first_iff {A : Type} (f : A -> bool) (l : list A) (x : A) :
  find f l = Some x
  <-> exists pre post, l = pre ++ x :: post /\ f x = true
                       /\ Forall (fun y => f y = false) pre.
Proof.
  split.
  - induction l as [|a l IH]; simpl; [discriminate|].
    destruct (f a) eqn:E.
    + intros H. injection H as <-. exists [], l. repeat split; [exact E|constructor].
    + intros H. destruct (IH H) as (pre & post & Hl & Hx & Hpre).
      exists (a :: pre), post. rewrite Hl. repeat split; [exact Hx|].
      constructor; [exact E|exact Hpre].
  - intros (pre & post & -> & Hx & Hpre).
    induction Hpre as [|a pre Ha Hpre IH]; simpl.
    + rewrite Hx. reflexivity.
    + rewrite Ha. exact IH.
Qed.

Lemma price_match_iff (r : Z) (b : string) (p : price_t) :
  (p_ronda p =? r)%Z && String.eqb (p_bond_id p) b = true
  <-> p_ronda p = r /\ p_bond_id p = b.
Proof.
  rewrite andb_true_iff, Z.eqb_eq, String.eqb_eq. reflexivity.
Qed.

Lemma find_price_published (st : state) (r : Z) (b : string) (p : price_t) :
  find_price st r b = Some p <-> published_for st r b p.
Proof.
  unfold find_price, published_for. rewrite find_first_iff.
  split; intros (pre & post & Hl & H).
  - destruct H as [Hx Hpre]. apply price_match_iff in Hx. destruct Hx as [Hr Hb].
    exists pre, post. repeat split; try assumption.
    eapply Forall_impl; [|exact Hpre]. cbv beta. intros p' Hp' Hk.
    apply price_match_iff in Hk. rewrite Hk in Hp'. discriminate.
  - destruct H as (Hr & Hb & Hpre).
    exists pre, post. repeat split; [exact Hl|now apply price_match_iff|].
    eapply Forall_impl; [|exact Hpre]. cbv beta. intros p' Hp'.
    destruct ((p_ronda p' =? r)%Z && String.eqb (p_bond_id p') b) eqn:E; [|reflexivity].
    apply price_match_iff in E. contradiction.
Qed.

Lemma find_price_nothing (st : state) (r : Z) (b : string) :
  find_price st r b = None <-> nothing_published_for st r b.
Proof.
  unfold find_price, nothing_published_for. split.
  - intros H p Hin Hk. apply price_match_iff in Hk.
    pose proof (find_none _ _ H p Hin) as Hf. cbv beta in Hf.
    rewrite Hk in Hf. discriminate.
  - intros H. destruct (find _ (prices st)) as [p|] eqn:E; [|reflexivity].
    apply find_some in E. destruct E as [Hin Hk]. apply price_match_iff in Hk.
    exfalso. exact (H p Hin Hk).
Qed.

Lemma unique_key_published (st : state) (r : Z) (b : string) (p : price_t) :
  price_keys_unique st ->
  In p (prices st) -> p_ronda p = r -> p_bond_id p = b ->
  published_for st r b p.
Proof.
  unfold price_keys_unique, published_for. intros Hnd Hin Hr Hb.
  destruct (in_split _ _ Hin) as (pre & post & Hl).
  exists pre, post. repeat split; try assumption.
  rewrite Hl, map_app in Hnd. simpl in Hnd. apply NoDup_remove_2 in Hnd.
  apply Forall_forall. intros p' Hp' [Hr' Hb']. apply Hnd.
  apply in_or_app. left.
  replace (price_key p) with (price_key p').
  - apply in_map. exact Hp'.
  - unfold price_key. rewrite Hr, Hb, Hr', Hb'. reflexivity.
Qed.

(** C2. Let [r] be the current round.  Either no stored price point is for
    round [r] and bond [b], or one is published for them ([published_for]: a
    stored price point of that round and bond; the stored one when the keys
    are unique, as publication keeps them).  With a price [p] published for
    (current round, bond), a BUY is priced at [p]'s ask with fees
    [qty * ask * comision_bps / 10000] and is rejected with "Cash
    insuficiente." exactly when the reconstructed cash is below
    [qty * ask + fees]; a SELL is priced at [p]'s bid and is rejected with "No
    posee cantidad suficiente para vender." exactly when the reconstructed
    holding of the bond is below [qty]; an accepted order of a registered team
    (a stored team of that name; the first of that name if a document holds
    several) is recorded at that price under the team's id.  The order is rejected
    with "No hay precios publicados para este bono/ronda." exactly when no
    stored price point is for (current round, bond), and the document is
    then unchanged. *)
Theorem can_exec_order_spec (st : state) (now name b : string) (q : Q) :
  let r := ronda_actual (game st) in
  let cash := snd (team_positions_and_cash st name) in
  let held := dict_get_or (fst (team_positions_and_cash st name)) b 0 in
  (nothing_published_for st r b \/ exists p, published_for st r b p)
  /\ (price_keys_unique st ->
      forall p, In p (prices st) -> p_ronda p = r -> p_bond_id p = b ->
                published_for st r b p)
  /\ (nothing_published_for st r b
      <-> forall sd, can_exec_order st name sd b q = (false, MsgNoPrecio, 0, 0))
  /\ (nothing_published_for st r b ->
      forall sd, exec_order st now name sd b q = Ok (st, (false, MsgNoPrecio)))
  /\ (forall p, published_for st r b p ->
        let ask := precio_ask p in
        let bid := precio_bid p in
        let fees_buy := q * ask * (comision_bps (game st) / 10000) in
        let fees_sell := q * bid * (comision_bps (game st) / 10000) in
        (can_exec_order st name BUY b q = (false, MsgCashInsuficiente, ask, fees_buy)
         <-> cash < q * ask + fees_buy)
        /\ (can_exec_order st name BUY b q = (true, MsgOK, ask, fees_buy)
            <-> ~ cash < q * ask + fees_buy)
        /\ (can_exec_order st name SELL b q = (false, MsgNoPosee, bid, fees_sell)
            <-> held < q)
        /\ (can_exec_order st name SELL b q = (true, MsgOK, bid, fees_sell)
            <-> ~ held < q)
        /\ (forall team,
              In team (teams st) -> team_name team = name ->
              names_unique st \/ registered_as st name team ->
              (~ cash < q * ask + fees_buy ->
               exec_order st now name BUY b q
               = Ok (with_orders st (orders st ++ [fill st now (team_id team) b BUY q ask]),
                     (true, MsgEjecutada BUY q b ask fees_buy)))
              /\ (~ held < q ->
                  exec_order st now name SELL b q
                  = Ok (with_orders st (orders st ++ [fill st now (team_id team) b SELL q bid]),
                        (true, MsgEjecutada SELL q b bid fees_sell))))).
Proof.
  intros r cash held. split; [|split; [|split; [|split]]].
  - destruct (find_price st r b) as [p|] eqn:Hp.
    + right. exists p. now apply find_price_published.
    + left. now apply find_price_nothing.
  - intros Hu p Hin Hr Hb. now apply unique_key_published.
  - split.
    + intros H sd. apply find_price_nothing in H. now apply can_exec_order_no_price.
    + intros H. apply find_price_nothing.
      destruct (find_price st r b) as [p|] eqn:Hp; [|reflexivity].
      specialize (H BUY). rewrite (can_exec_order_buy st name b q p Hp) in H.
      destruct (Qltb _ _); discriminate.
  - intros H sd. apply find_price_nothing in H.
    eapply exec_order_rejected. now apply can_exec_order_no_price.
  - intros p Hp ask bid fees_buy fees_sell. apply find_price_published in Hp.
    destruct (can_exec_order_buy_iff st name b q p Hp) as [HBr HBa].
    destruct (can_exec_order_sell_iff st name b q p Hp) as [HSr HSa].
    split; [exact HBr|]. split; [exact HBa|]. split; [exact HSr|]. split; [exact HSa|].
    intros team Hin Hn Hfirst.
    assert (Ht : team_get st name = Some team).
    { apply team_get_registered. destruct Hfirst as [Hu|Hr]; [|exact Hr].
      now apply unique_name_registered. }
    split; intros Hok.
    + apply (exec_order_accepted st now name b BUY q ask fees_buy team Ht).
      now apply HBa.
    + apply (exec_order_accepted st now name b SELL q bid fees_sell team Ht).
      now apply HSa.
Qed.

Lemma can_exec_order_spec_witness :
  ronda_actual (game st_round2) = 2%Z
  /\ nth_error (prices st_round2) 4 = Some px_round2_B2
  /\ published_for st_round2 2 "B2" px_round2_B2
  /\ ~ precio_ask px_round2_B2 == precio_ask (nth 1 (prices st_round2) px_round2_B2)
  /\ can_exec_order st_round2 "Alfa" BUY "B2" 10
     = (true, MsgOK, precio_ask px_round2_B2,
        10 * precio_ask px_round2_B2 * (comision_bps (game st_round2) / 10000))
  /\ can_exec_order st_round2 "Beta" SELL "B2" 6
     = (false, MsgNoPosee, precio_bid px_round2_B2,
        6 * precio_bid px_round2_B2 * (comision_bps (game st_round2) / 10000))
  /\ (forall sd, can_exec_order st_round2 "Alfa" sd "B9" 10 = (false, MsgNoPrecio, 0, 0)).
Proof.
  assert (Hpub : published_for st_round2 2 "B2" px_round2_B2).
  { exists (firstn 4 (prices st_round2)), (skipn 5 (prices st_round2)).
    split; [reflexivity|]. split; [reflexivity|]. split; [reflexivity|].
    repeat constructor; intros [Hr Hb]; discriminate. }
  pose proof (can_exec_order_spec st_round2 "t10" "Alfa" "B2" 10) as HA.
  pose proof (can_exec_order_spec st_round2 "t10" "Beta" "B2" 6) as HB.
  pose proof (can_exec_order_spec st_round2 "t10" "Alfa" "B9" 10) as HN.
  cbv zeta in HA, HB, HN.
  destruct HA as (_ & _ & _ & _ & HA). destruct (HA px_round2_B2 Hpub) as (_ & HA2 & _).
  destruct HB as (_ & _ & _ & _ & HB). destruct (HB px_round2_B2 Hpub) as (_ & _ & HB3 & _).
  destruct HN as (_ & _ & [HN _] & _).
  split; [reflexivity|]. split; [reflexivity|]. split; [exact Hpub|].
  split; [vm_compute; discriminate|].
  split; [apply HA2; vm_compute; discriminate|].
  split; [apply HB3; vm_compute; reflexivity|].
  intros sd. apply HN.
  intros p Hin [Hr Hb]. simpl in Hin.
  repeat (destruct Hin as [<-|Hin]; [discriminate Hb|]). exact Hin.
Defined.

Lemma can_exec_order_cases (st : state) (name b : string) (sd : side_t) (q : Q) :
  (exists msg px f, can_exec_order st name sd b q = (false, msg, px, f)
                    /\ (msg = MsgNoPrecio \/ msg = MsgCashInsuficiente \/ msg = MsgNoPosee))
  \/ (exists px f, can_exec_order st name sd b q = (true, MsgOK, px, f)).
Proof.
  destruct (find_price st (ronda_actual (game st)) b) as [p|] eqn:Hp.
  - destruct sd.
    + rewrite (can_exec_order_buy st name b q p Hp).
      destruct (Qltb _ _); [left|right]; repeat eexists; auto.
    + rewrite (can_exec_order_sell st name b q p Hp).
      destruct (Qltb _ _); [left|right]; repeat eexists; auto.
  - left. rewrite (can_exec_order_no_price st name sd b q Hp). repeat eexists; auto.
Qed.

Lemma exec_order_false_state (st st' : state) (now name b : string) (sd : side_t) (q : Q)
      (msg : mensaje) :
  exec_order st now name sd b q = Ok (st', (false, msg)) ->
  st' = st /\ (msg = MsgNoPrecio \/ msg = MsgCashInsuficiente \/ msg = MsgNoPosee).
Proof.
  intros H. unfold exec_order in H.
  destruct (can_exec_order_cases st name b sd q)
    as [(m & px & f & Hc & Hm)|(px & f & Hc)]; rewrite Hc in *; simpl in H.
  - injection H as <- <-. auto.
  - destruct (team_get st name); discriminate.
Qed.

(** C3. A rejected submission (no published price, insufficient cash or
    insufficient inventory) returns the game document it was given: no order
    is appended and every team's reconstructed positions and cash are what
    they were.  A successful submission differs from the document it was given
    in exactly one appended order record. *)
Theorem exec_order_rejection_leaves_state
        (st st' : state) (now name b : string) (sd : side_t) (q : Q)
        (ok : bool) (msg : mensaje) :
  exec_order st now name sd b q = Ok (st', (ok, msg)) ->
  (ok = false ->
   st' = st
   /\ (msg = MsgNoPrecio \/ msg = MsgCashInsuficiente \/ msg = MsgNoPosee)
   /\ orders st' = orders st
   /\ forall n, team_positions_and_cash st' n = team_positions_and_cash st n)
  /\ (ok = true ->
      exists o, st' = with_orders st (orders st ++ [o])
                /\ side o = sd /\ qty o = q /\ o_bond_id o = b)
  /\ (fst (fst (fst (can_exec_order st name sd b q))) = false -> ok = false).
Proof.
  intros H. unfold exec_order in H.
  destruct (can_exec_order_cases st name b sd q)
    as [(m & px & f & Hc & Hm)|(px & f & Hc)]; rewrite Hc in *; simpl in H.
  - injection H as <- <- <-. repeat split; auto; discriminate.
  - destruct (team_get st name) as [team|]; [|discriminate].
    injection H as <- <- <-. repeat split; try discriminate.
    intros _. eexists. repeat split.
Qed.

Lemma exec_order_rejection_leaves_state_witness :
  exec_order st_trading "t4" "Alfa" SELL "B1" 1 = Ok (st_trading, (false, MsgNoPosee))
  /\ forall n, team_positions_and_cash st_trading n = team_positions_and_cash st_trading n.
Proof.
  split; [vm_compute; reflexivity|].
  apply (exec_order_rejection_leaves_state st_trading st_trading "t4" "Alfa" "B1" SELL 1
           false MsgNoPosee); [vm_compute|]; reflexivity.
Defined.

(** C4 as stated fails: a BUY of quantity 0 and a SELL of quantity -5 are both
    accepted by [exec_order] and each appends an order record. *)
Lemma exec_order_accepts_nonpositive_qty :
  exec_order st_trading "t4" "Alfa" BUY "B1" 0
  = Ok (with_orders st_trading
          (orders st_trading
           ++ [fill st_trading "t4" "T1" "B1" BUY 0
                    (precio_ask (nth 0 (prices st_trading) (mkPrice 0 "" 0 0 0 0 "")))]),
        (true, MsgEjecutada BUY 0 "B1"
                 (precio_ask (nth 0 (prices st_trading) (mkPrice 0 "" 0 0 0 0 "")))
                 (fees_of st_trading 0
                    (precio_ask (nth 0 (prices st_trading) (mkPrice 0 "" 0 0 0 0 ""))))))
  /\ exists st', exec_order st_trading "t4" "Alfa" SELL "B1" (-5 # 1)
                 = Ok (st', (true, MsgEjecutada SELL (-5 # 1) "B1"
                        (precio_bid (nth 0 (prices st_trading) (mkPrice 0 "" 0 0 0 0 "")))
                        (fees_of st_trading (-5 # 1)
                           (precio_bid (nth 0 (prices st_trading) (mkPrice 0 "" 0 0 0 0 ""))))))
                 /\ List.length (orders st') = S (List.length (orders st_trading)).
Proof.
  split; [vm_compute; reflexivity|].
  eexists. split; vm_compute; reflexivity.
Qed.

(** C4, amended. [exec_order] makes no test of its own on the quantity: with
    a published price and a registered team, an order of quantity [q <= 0] is
    decided by the cash or inventory test alone.  A SELL of [q <= 0] by a team
    whose holding of the bond is not negative, and a BUY of [q == 0] by a team
    whose cash is not negative, are accepted and appended.  Quantities below 1
    are kept out by the participant panel's order form, which submits nothing
    for them; and whenever [exec_order] rejects, it appends nothing. *)
Theorem exec_order_nonpositive_qty
        (st : state) (now name b : string) (team : team_t) (p : price_t) (q : Q) :
  team_get st name = Some team ->
  find_price st (ronda_actual (game st)) b = Some p ->
  q <= 0 ->
  let cash := snd (team_positions_and_cash st name) in
  let held := dict_get_or (fst (team_positions_and_cash st name)) b 0 in
  (0 <= held ->
   exec_order st now name SELL b q
   = Ok (with_orders st (orders st ++ [fill st now (team_id team) b SELL q (precio_bid p)]),
         (true, MsgEjecutada SELL q b (precio_bid p) (fees_of st q (precio_bid p)))))
  /\ (q == 0 -> 0 <= cash ->
      exec_order st now name BUY b q
      = Ok (with_orders st (orders st ++ [fill st now (team_id team) b BUY q (precio_ask p)]),
            (true, MsgEjecutada BUY q b (precio_ask p) (fees_of st q (precio_ask p)))))
  /\ (forall sd st' msg, exec_order st now name sd b q = Ok (st', (false, msg)) -> st' = st)
  /\ (forall sd n, (n < 1)%Z -> ui_participant_enviar_orden st now name sd b n = None).
Proof.
  intros Ht Hp Hq cash held. repeat split.
  - intros Hheld. eapply exec_order_accepted; [exact Ht|].
    rewrite (can_exec_order_sell st name b q p Hp). fold held.
    assert (E : Qltb held q = false) by (apply Qltb_ge; now apply Qle_trans with 0).
    now rewrite E.
  - intros Hq0 Hcash. eapply exec_order_accepted; [exact Ht|].
    rewrite (can_exec_order_buy st name b q p Hp). fold cash.
    assert (E : Qltb cash (q * precio_ask p + fees_of st q (precio_ask p)) = false).
    { apply Qltb_ge. unfold fees_of. rewrite Hq0.
      setoid_replace (0 * precio_ask p + 0 * precio_ask p * (comision_bps (game st) / 10000))
        with 0 by ring.
      exact Hcash. }
    now rewrite E.
  - intros sd st' msg H.
    now destruct (exec_order_false_state st st' now name b sd q msg H) as [-> _].
  - intros sd n Hn. unfold ui_participant_enviar_orden.
    destruct (Z.leb_spec 1 n); [lia|]. now rewrite andb_false_r.
Qed.

Lemma exec_order_nonpositive_qty_witness :
  exec_order st_trading "t4" "Alfa" SELL "B1" (-5 # 1)
  = Ok (with_orders st_trading
          (orders st_trading
           ++ [fill st_trading "t4" "T1" "B1" SELL (-5 # 1)
                    (precio_bid (nth 0 (prices st_trading) (mkPrice 0 "" 0 0 0 0 "")))]),
        (true, MsgEjecutada SELL (-5 # 1) "B1"
                 (precio_bid (nth 0 (prices st_trading) (mkPrice 0 "" 0 0 0 0 "")))
                 (fees_of st_trading (-5 # 1)
                    (precio_bid (nth 0 (prices st_trading) (mkPrice 0 "" 0 0 0 0 "")))))).
Proof.
  refine (proj1 (exec_order_nonpositive_qty st_trading "t4" "Alfa" "B1" team_Alfa
                   (nth 0 (prices st_trading) (mkPrice 0 "" 0 0 0 0 "")) (-5 # 1)
                   _ _ _) _).
  - reflexivity.
  - reflexivity.
  - vm_compute. discriminate.
  - vm_compute. discriminate.
Defined.

(* ------------------------------------------------------------------ *)
(** ** Price publication                                                *)
(* ------------------------------------------------------------------ *)

Lemma map_result_Forall2 {A B : Type} (f : A -> result B) (xs : list A) (ys : list B) :
  map_result f xs = Ok ys <-> Forall2 (fun x y => f x = Ok y) xs ys.
Proof.
  revert ys. induction xs as [|x xs IH]; intros ys; simpl.
  - split.
    + intros H. injection H as <-. constructor.
    + intros H. inversion H. reflexivity.
  - split.
    + destruct (f x) as [y|e] eqn:Ef; simpl; [|discriminate].
      destruct (map_result f xs) as [ys'|e]; simpl; [|discriminate].
      intros H. injection H as <-. constructor; [exact Ef|now apply IH].
    + intros H. inversion H as [|x' y xs' ys' Hf Hrest]; subst.
      rewrite Hf. simpl. apply IH in Hrest. rewrite Hrest. reflexivity.
Qed.

Lemma map_result_raise {A B : Type} (f : A -> result B) (xs : list A) (x : A) (e : exn) :
  In x xs -> f x = Raise e -> exists e', map_result f xs = Raise e'.
Proof.
  induction xs as [|x0 xs IH]; simpl; [intros []|].
  intros [->|Hin] Hf.
  - rewrite Hf. now exists e.
  - destruct (f x0); simpl; [|eauto].
    destruct (IH Hin Hf) as [e' ->]. now exists e'.
Qed.

Lemma price_point_fields (g : game_t) (evs : list event_t) (now : string) (b : bond_t)
      (p : price_t) :
  price_point g evs now b = Ok p ->
  p_ronda p = ronda_actual g
  /\ p_bond_id p = b_bond_id b
  /\ y_efectiva p = bond_ytm evs (ronda_actual g) b
  /\ price_bond_mid b (y_efectiva p) (fraccion_anio g) (ronda_actual g - 1)
     = Ok (precio_mid p)
  /\ (precio_bid p, precio_ask p) = bid_ask_from_mid (precio_mid p) (bid_bp g) (ask_bp g).
Proof.
  unfold price_point.
  destruct (price_bond_mid b _ _ _) as [mid|e] eqn:E; simpl; [|discriminate].
  intros H. injection H as <-. simpl. auto.
Qed.

Lemma filter_other_round_app (r : Z) (old new : list price_t) :
  Forall (fun p => p_ronda p = r) new ->
  filter (fun p => negb (p_ronda p =? r)%Z)
         (filter (fun p => negb (p_ronda p =? r)%Z) old ++ new)
  = filter (fun p => negb (p_ronda p =? r)%Z) old
  /\ filter (fun p => (p_ronda p =? r)%Z)
            (filter (fun p => negb (p_ronda p =? r)%Z) old ++ new)
     = new.
Proof.
  intros Hnew. rewrite !filter_app. split.
  - replace (filter (fun p => negb (p_ronda p =? r)%Z) new) with (@nil price_t).
    + rewrite app_nil_r. induction old as [|p old IH]; simpl; [reflexivity|].
      destruct (negb (p_ronda p =? r)%Z) eqn:E; simpl; [rewrite E|]; congruence.
    + induction Hnew as [|p new Hp _ IH]; simpl; [reflexivity|].
      rewrite Hp, Z.eqb_refl. exact IH.
  - replace (filter (fun p => (p_ronda p =? r)%Z)
                    (filter (fun p => negb (p_ronda p =? r)%Z) old)) with (@nil price_t).
    + simpl. induction Hnew as [|p new Hp _ IH]; simpl; [reflexivity|].
      rewrite Hp, Z.eqb_refl. congruence.
    + induction old as [|p old IH]; simpl; [reflexivity|].
      destruct (p_ronda p =? r)%Z eqn:E; simpl; [|rewrite E]; exact IH.
Qed.

Lemma publish_prices_for_round_ok (st : state) (now : string) (st' : state) :
  publish_prices_for_round st now = Ok st' ->
  exists new,
    new_prices st now = Ok new
    /\ st' = mkState (set_estado (game st) TRADING_ON) (bonds st)
                     (map (mark_published (ronda_actual (game st))) (events st))
                     (filter (fun p => negb (p_ronda p =? ronda_actual (game st))%Z)
                             (prices st) ++ new)
                     (teams st) (orders st) (ledger st).
Proof.
  unfold publish_prices_for_round, new_prices.
  destruct (map_result _ _) as [new|e]; simpl; [|discriminate].
  intros H. injection H as <-. now exists new.
Qed.

Lemma new_prices_round (st : state) (now : string) (new : list price_t) :
  new_prices st now = Ok new ->
  Forall (fun p => p_ronda p = ronda_actual (game st)) new.
Proof.
  unfold new_prices. rewrite map_result_Forall2.
  induction 1 as [|b p bs ps Hp _ IH]; constructor; [|exact IH].
  now apply price_point_fields in Hp.
Qed.

(** C5. A successful publication for the current round [r] leaves, in their
    order, exactly the stored price points of the other rounds followed by the
    newly computed set, all of round [r]: the price points of [r] are replaced
    as one batch and every price point of another round is kept.  Orders (with
    their stored executed price and fees), ledger, teams and bonds are
    unchanged, and so is every team's reconstruction.  (A publication that
    raises leaves the document as it was.) *)
Theorem publish_prices_replaces_round (st st' : state) (now : string) :
  publish_prices_for_round st now = Ok st' ->
  let r := ronda_actual (game st) in
  (exists new,
      new_prices st now = Ok new
      /\ prices st' = filter (fun p => negb (p_ronda p =? r)%Z) (prices st) ++ new
      /\ filter (fun p => (p_ronda p =? r)%Z) (prices st') = new)
  /\ filter (fun p => negb (p_ronda p =? r)%Z) (prices st')
     = filter (fun p => negb (p_ronda p =? r)%Z) (prices st)
  /\ (forall p, p_ronda p <> r -> (In p (prices st') <-> In p (prices st)))
  /\ orders st' = orders st
  /\ ledger st' = ledger st
  /\ teams st' = teams st
  /\ bonds st' = bonds st
  /\ (forall n, team_positions_and_cash st' n = team_positions_and_cash st n).
Proof.
  intros H r. destruct (publish_prices_for_round_ok st now st' H) as (new & Hnew & ->).
  pose proof (new_prices_round st now new Hnew) as Hr. fold r in Hr.
  destruct (filter_other_round_app r (prices st) new Hr) as [Hother Hsame].
  simpl. fold r. repeat split; auto.
  - exists new. auto.
  - intros Hin. apply in_app_or in Hin. destruct Hin as [Hin|Hin].
    + now apply filter_In in Hin.
    + rewrite Forall_forall in Hr. apply Hr in Hin. contradiction.
  - intros Hin. apply in_or_app. left. apply filter_In. split; [exact Hin|].
    apply negb_true_iff. now apply Z.eqb_neq.
Qed.

(* ------------------------------------------------------------------ *)
(** ** Pricing model                                                    *)
(* ------------------------------------------------------------------ *)

Lemma py_max_Qmax (a b a' b' : Q) : a == a' -> b == b' -> py_max a b == Qmax a' b'.
Proof.
  intros Ha Hb. unfold py_max. destruct (Qltb a b) eqn:E.
  - apply Qltb_lt in E. rewrite Q.max_r; [exact Hb|].
    rewrite <- Ha, <- Hb. now apply Qlt_le_weak.
  - apply Qltb_ge in E. rewrite Q.max_l; [exact Ha|].
    now rewrite <- Ha, <- Hb.
Qed.

Lemma Qsum_map_ext {A : Type} (g h : A -> Q) (xs : list A) :
  (forall x, g x == h x) -> Qsum (map g xs) == Qsum (map h xs).
Proof.
  intros H. induction xs as [|x xs IH]; simpl; [reflexivity|].
  now rewrite H, IH.
Qed.

Lemma fold_left_Qsum {A : Type} (g : A -> Q) (xs : list A) (acc : Q) :
  fold_left (fun pv k => pv + g k) xs acc == acc + Qsum (map g xs).
Proof.
  revert acc. induction xs as [|x xs IH]; intros acc; simpl; [ring|].
  rewrite IH. ring.
Qed.

Lemma py_sum_Qsum (xs : list Q) : py_sum xs == Qsum xs.
Proof.
  unfold py_sum. rewrite (fold_left_Qsum (fun x => x) xs 0), map_id. ring.
Qed.

Lemma for_each_pv_step (C i : Q) (ks : list nat) (acc : Q) :
  ~ 1 + i == 0 ->
  for_each (pv_step C i) ks acc
  = Ok (fold_left (fun pv k => pv + C / (1 + i) ^ Z.of_nat k) ks acc).
Proof.
  intros Hi. revert acc. induction ks as [|k ks IH]; intros acc; simpl; [reflexivity|].
  unfold pv_step at 1. rewrite py_div_ok by now apply Qpower_not_0.
  simpl. apply IH.
Qed.

Lemma int_or_nonzero (x d : Z) : d <> 0%Z -> ~ inject_Z (int_or x d) == 0.
Proof.
  intros Hd H. unfold int_or in H. unfold Qeq in H. simpl in H.
  destruct (Z.eqb_spec x 0); lia.
Qed.

Lemma Qinv_unit_nonzero (x : Q) : ~ x == 0 -> ~ 1 / x == 0.
Proof.
  intros Hx H. apply Hx.
  setoid_replace x with (x * x * (1 / x)) by (field; exact Hx).
  rewrite H. ring.
Qed.

(** In exact arithmetic: where the per-period discount factor [1 + i] is not
    zero, the model of [price_bond_mid] evaluates to the floored present value
    of the specification, and that value is at least [0.01]. *)
Lemma price_bond_mid_value (bond : bond_t) (y q : Q) (e : Z) :
  let f := int_or (frecuencia_anual bond) 2 in
  ~ 1 + y / inject_Z f == 0 ->
  exists v,
    price_bond_mid bond y q e = Ok v
    /\ v == spec_price_mid (valor_nominal bond) (tasa_cupon_anual bond) f
                           (vencimiento_anios bond) y q e
    /\ 1 # 100 <= v.
Proof.
  intros f Hi.
  assert (Hf : ~ inject_Z f == 0) by (apply int_or_nonzero; lia).
  assert (Hdt : ~ 1 / inject_Z f == 0) by now apply Qinv_unit_nonzero.
  unfold price_bond_mid. fold f.
  rewrite (py_div_ok 1 _ Hf). cbn [bind].
  rewrite (py_div_ok _ _ Hdt). cbn [bind].
  rewrite (py_div_ok (tasa_cupon_anual bond) _ Hf). cbn [bind].
  rewrite (py_div_ok y _ Hf). cbn [bind].
  rewrite for_each_pv_step by exact Hi. cbn [bind].
  rewrite py_div_ok by now apply Qpower_not_0. cbn [bind].
  eexists. split; [reflexivity|]. split; [|apply py_max_lower].
  unfold spec_price_mid.
  assert (Hrem : py_max 0 (vencimiento_anios bond - inject_Z e * q)
                 == Qmax 0 (vencimiento_anios bond - inject_Z e * q))
    by (apply py_max_Qmax; reflexivity).
  assert (HN : Qceiling (py_max 0 (vencimiento_anios bond - inject_Z e * q)
                         / (1 / inject_Z f))
               = Qceiling (Qmax 0 (vencimiento_anios bond - inject_Z e * q)
                           / (1 / inject_Z f)))
    by (apply Qceiling_comp; now rewrite Hrem).
  rewrite HN. apply py_max_Qmax; [reflexivity|].
  rewrite fold_left_Qsum.
  rewrite (Qsum_map_ext
             (fun k => valor_nominal bond * (tasa_cupon_anual bond / inject_Z f)
                       / (1 + y / inject_Z f) ^ Z.of_nat k)
             (fun k => valor_nominal bond * tasa_cupon_anual bond / inject_Z f
                       / (1 + y / inject_Z f) ^ Z.of_nat k)).
  - ring.
  - intros k. field. split; first [exact Hf | now apply Qpower_not_0].
Qed.

(** Where [1 + i] is zero, the first term of the loop divides by zero. *)
Lemma price_bond_mid_singular (bond : bond_t) (y q : Q) (e : Z) :
  1 + y / inject_Z (int_or (frecuencia_anual bond) 2) == 0 ->
  price_bond_mid bond y q e = Raise ZeroDivisionError.
Proof.
  intros Hi. set (f := int_or (frecuencia_anual bond) 2) in *.
  assert (Hf : ~ inject_Z f == 0) by (apply int_or_nonzero; lia).
  assert (Hdt : ~ 1 / inject_Z f == 0) by now apply Qinv_unit_nonzero.
  unfold price_bond_mid. fold f.
  rewrite (py_div_ok 1 _ Hf). cbn [bind].
  rewrite (py_div_ok _ _ Hdt). cbn [bind].
  rewrite (py_div_ok (tasa_cupon_anual bond) _ Hf). cbn [bind].
  rewrite (py_div_ok y _ Hf). cbn [bind].
  set (N := Z.max 1 _).
  destruct (Z.to_nat N) as [|n] eqn:EN; [lia|].
  cbn [seq for_each]. unfold pv_step at 1.
  rewrite py_div_zero; [reflexivity|].
  change (Z.of_nat 1) with 1%Z. simpl. exact Hi.
Qed.

(** A price that [price_bond_mid] returns is the floored present value, and
    the call raised nothing on the way, so the discount factor is not zero. *)
Lemma price_bond_mid_ok_inv (bond : bond_t) (y q : Q) (e : Z) (v : Q) :
  let f := int_or (frecuencia_anual bond) 2 in
  price_bond_mid bond y q e = Ok v ->
  ~ 1 + y / inject_Z f == 0
  /\ v == spec_price_mid (valor_nominal bond) (tasa_cupon_anual bond) f
                         (vencimiento_anios bond) y q e
  /\ 1 # 100 <= v.
Proof.
  intros f Hv.
  destruct (Qeq_dec (1 + y / inject_Z f) 0) as [H0|Hi].
  - rewrite (price_bond_mid_singular bond y q e H0) in Hv. discriminate.
  - split; [exact Hi|].
    destruct (price_bond_mid_value bond y q e Hi) as (v' & Hv' & Hspec & Hfloor).
    rewrite Hv in Hv'. injection Hv' as <-. split; assumption.
Qed.



(** Bond B1 in round 1 of the example scenario: six semiannual periods at
    [i = 0.00625] with coupon 40. *)
Example price_B1_round1 :
  exists v, price_bond_mid bond_B1 (effective_ytm 50 75 0) (1 # 4) 0 = Ok v
            /\ 1198 < v /\ v < 1199.
Proof.
  eexists. split; [vm_compute; reflexivity|]. split; vm_compute; reflexivity.
Qed.

(** For a non-negative mid price and non-negative spreads,
    [bid <= mid <= ask]. *)
Theorem bid_ask_spread_monotone (mid bid_bp_ ask_bp_ : Q) :
  0 <= mid -> 0 <= bid_bp_ -> 0 <= ask_bp_ ->
  fst (bid_ask_from_mid mid bid_bp_ ask_bp_) <= mid
  /\ mid <= snd (bid_ask_from_mid mid bid_bp_ ask_bp_).
Proof.
  intros Hm Hb Ha. unfold bid_ask_from_mid. simpl. split.
  - setoid_replace (mid * (1 - bid_bp_ / 10000)) with (mid - mid * bid_bp_ * (1 # 10000))
      by field.
    assert (H : 0 <= mid * bid_bp_ * (1 # 10000)).
    { apply Qmult_le_0_compat; [now apply Qmult_le_0_compat|discriminate]. }
    apply Qplus_le_l with (mid * bid_bp_ * (1 # 10000)).
    setoid_replace (mid - mid * bid_bp_ * (1 # 10000) + mid * bid_bp_ * (1 # 10000))
      with (mid + 0) by ring.
    now apply Qplus_le_r.
  - setoid_replace (mid * (1 + ask_bp_ / 10000)) with (mid + mid * ask_bp_ * (1 # 10000))
      by field.
    assert (H : 0 <= mid * ask_bp_ * (1 # 10000)).
    { apply Qmult_le_0_compat; [now apply Qmult_le_0_compat|discriminate]. }
    setoid_replace mid with (mid + 0) at 1 by ring.
    now apply Qplus_le_r.
Qed.

Lemma bid_ask_spread_monotone_witness :
  fst (bid_ask_from_mid 1000 20 20) <= 1000 /\ 1000 <= snd (bid_ask_from_mid 1000 20 20).
Proof.
  apply (bid_ask_spread_monotone 1000 20 20); discriminate.
Defined.

(** C7 at its failing input: bond B1 (semiannual), yield [-20000 bps], that
    is [i = -1]: the loop's first term divides by [(1 + i) ** 1 = 0] and
    [price_bond_mid] raises instead of returning a price. *)
Theorem price_bond_mid_raises_at_minus_one :
  price_bond_mid bond_B1 (effective_ytm (-20000 # 1) 0 0) (1 # 4) 0
  = Raise ZeroDivisionError.
Proof.
  apply price_bond_mid_singular. vm_compute. reflexivity.
Qed.

(* ------------------------------------------------------------------ *)
(** ** Yield composition                                                *)
(* ------------------------------------------------------------------ *)

Lemma Qsum_app (xs ys : list Q) : Qsum (xs ++ ys) == Qsum xs + Qsum ys.
Proof.
  induction xs as [|x xs IH]; simpl; [ring|]. rewrite IH. ring.
Qed.

Lemma bond_ytm_formula (evs : list event_t) (r : Z) (b : bond_t) :
  bond_ytm evs r b
  == (spread_bps b + market_delta evs r + idios_delta evs r (b_bond_id b)) / 10000.
Proof.
  unfold bond_ytm, effective_ytm, ev_mkt, ev_idios, market_delta, idios_delta.
  now rewrite !py_sum_Qsum.
Qed.

Lemma bond_ytm_additive (evs1 evs2 : list event_t) (e : event_t) (r : Z) (b : bond_t) :
  bond_ytm (evs1 ++ e :: evs2) r b
  == bond_ytm (evs1 ++ evs2) r b + event_contribution e r (b_bond_id b) / 10000.
Proof.
  rewrite !bond_ytm_formula. unfold market_delta, idios_delta, event_contribution.
  rewrite !filter_app, !map_app, !Qsum_app. cbn [filter].
  destruct (e_round e =? r)%Z; cbn [andb]; [|field].
  destruct (tipo e); cbn [tipo_eqb andb].
  - cbn [map Qsum]. field.
  - destruct (String.eqb (py_str (e_bond_id e)) (b_bond_id b)); cbn [map Qsum]; field.
Qed.

(** C8. In the price set published for round [r], the yield stored for each
    bond is [(spread_bps + sum of the deltas of the MARKET events of round r
    + sum of the impacts of the IDIOS events of round r naming the bond) /
    10000], with no base-rate term.  Events add up: one more event, anywhere
    in the list, changes a bond's yield by exactly its own contribution over
    10000, whatever other events of the same kind, round and bond exist. *)
Theorem effective_yield_composition (st st' : state) (now : string) :
  publish_prices_for_round st now = Ok st' ->
  let r := ronda_actual (game st) in
  Forall2 (fun b p =>
             p_ronda p = r /\ p_bond_id p = b_bond_id b
             /\ y_efectiva p
                == (spread_bps b + market_delta (events st) r
                    + idios_delta (events st) r (b_bond_id b)) / 10000)
          (bonds st) (filter (fun p => (p_ronda p =? r)%Z) (prices st'))
  /\ (forall evs1 e evs2 b,
         bond_ytm (evs1 ++ e :: evs2) r b
         == bond_ytm (evs1 ++ evs2) r b + event_contribution e r (b_bond_id b) / 10000).
Proof.
  intros H r. split; [|intros; apply bond_ytm_additive].
  destruct (publish_prices_for_round_ok st now st' H) as (new & Hnew & ->).
  pose proof (new_prices_round st now new Hnew) as Hr. fold r in Hr.
  destruct (filter_other_round_app r (prices st) new Hr) as [_ Hsame].
  cbn [prices]. fold r. rewrite Hsame.
  unfold new_prices in Hnew. apply map_result_Forall2 in Hnew.
  eapply Forall2_impl; [|exact Hnew].
  intros b p Hp. cbv beta in Hp. apply price_point_fields in Hp.
  destruct Hp as (Hround & Hid & Hy & _).
  repeat split; [exact Hround|exact Hid|].
  rewrite Hy. apply bond_ytm_formula.
Qed.

Lemma effective_yield_composition_witness :
  publish_prices_for_round st_lobby "t3" = Ok st_trading
  /\ map (fun p => Qred (y_efectiva p)) (prices st_trading)
     = [1 # 80; 9 # 400; 59 # 2000]
  /\ Forall2 (fun b p =>
                p_ronda p = 1%Z /\ p_bond_id p = b_bond_id b
                /\ y_efectiva p
                   == (spread_bps b + market_delta (events st_lobby) 1
                       + idios_delta (events st_lobby) 1 (b_bond_id b)) / 10000)
             (bonds st_lobby) (filter (fun p => (p_ronda p =? 1)%Z) (prices st_trading)).
Proof.
  split; [vm_compute; reflexivity|].
  split; [vm_compute; reflexivity|].
  exact (proj1 (effective_yield_composition st_lobby st_trading "t3" eq_refl)).
Defined.

(* ------------------------------------------------------------------ *)
(** ** Publication in any phase                                         *)
(* ------------------------------------------------------------------ *)

Lemma publish_prices_phase_blind (st : state) (now : string) (e : estado_t) :
  publish_prices_for_round (with_game st (set_estado (game st) e)) now
  = publish_prices_for_round st now.
Proof.
  destruct st as [g bs evs ps ts os ls]. destruct g. reflexivity.
Qed.

Lemma publish_prices_ok_game (st st' : state) (now : string) :
  publish_prices_for_round st now = Ok st' ->
  estado (game st') = TRADING_ON
  /\ ronda_actual (game st') = ronda_actual (game st)
  /\ rondas_totales (game st') = rondas_totales (game st).
Proof.
  unfold publish_prices_for_round.
  destruct (map_result _ (bonds st)) as [new|x]; simpl; [|discriminate].
  intros H. injection H as <-. destruct st as [g bs evs ps ts os ls]. destruct g.
  repeat split.
Qed.

(** Publication checks neither the phase nor that a scenario is loaded: its
    outcome, the new document or the exception, is the same from every
    phase; whenever it returns, the phase is TRADING_ON and the round and the
    number of rounds are as before; with no bonds it always returns, and the
    current round's price set becomes empty. *)
Theorem publish_prices_any_phase (st : state) (now : string) :
  (forall e, publish_prices_for_round (with_game st (set_estado (game st) e)) now
             = publish_prices_for_round st now)
  /\ (forall st', publish_prices_for_round st now = Ok st' ->
                  estado (game st') = TRADING_ON
                  /\ ronda_actual (game st') = ronda_actual (game st)
                  /\ rondas_totales (game st') = rondas_totales (game st))
  /\ (bonds st = [] ->
      exists st',
        publish_prices_for_round st now = Ok st'
        /\ estado (game st') = TRADING_ON
        /\ prices st' = filter (fun p => negb (p_ronda p =? ronda_actual (game st))%Z)
                               (prices st)).
Proof.
  split; [|split].
  - intros e. apply publish_prices_phase_blind.
  - intros st'. apply publish_prices_ok_game.
  - intros Hb. unfold publish_prices_for_round. rewrite Hb. simpl.
    eexists. split; [reflexivity|]. simpl. split; [|apply app_nil_r].
    destruct (game st). reflexivity.
Qed.

Lemma publish_prices_any_phase_witness :
  estado (game (with_game st_traded (set_estado (game st_traded) FIN))) = FIN
  /\ publish_prices_for_round (with_game st_traded (set_estado (game st_traded) FIN)) "t9"
     = publish_prices_for_round st_traded "t9"
  /\ estado (game (ok_state (publish_prices_for_round
                               (with_game st_traded (set_estado (game st_traded) FIN)) "t9")
                            st_traded))
     = TRADING_ON.
Proof.
  destruct (publish_prices_any_phase st_traded "t9") as (Hphase & _ & _).
  split; [reflexivity|]. split; [apply Hphase|].
  vm_compute. reflexivity.
Defined.

(** C10 at its failing input: a document in LOBBY whose only bond has a
    spread of [-20000] bps (semiannual, so [i = -1]).  Publication raises
    [ZeroDivisionError]; the moderator's button, which finds a bond loaded,
    ends in that exception and the phase stays LOBBY. *)
Theorem publish_prices_raises_on_singular_yield :
  publish_prices_for_round st_singular "t1" = Raise ZeroDivisionError
  /\ ui_moderator_click st_singular "t1" BtnPublicar = Crashed ZeroDivisionError
  /\ estado (game st_singular) = LOBBY.
Proof.
  repeat split; vm_compute; reflexivity.
Qed.

Lemma publish_prices_replaces_round_witness :
  publish_prices_for_round st_round2_lobby "t9" = Ok st_round2
  /\ filter (fun p => (p_ronda p =? 1)%Z) (prices st_round2) = prices st_trading
  /\ List.length (filter (fun p => (p_ronda p =? 2)%Z) (prices st_round2)) = 3%nat
  /\ orders st_round2 = orders st_round2_lobby
  /\ ledger st_round2 = ledger st_round2_lobby.
Proof.
  split; [vm_compute; reflexivity|].
  split; [vm_compute; reflexivity|].
  split; [vm_compute; reflexivity|].
  pose proof (publish_prices_replaces_round st_round2_lobby st_round2 "t9") as H.
  cbv zeta in H.
  destruct H as (_ & _ & _ & Ho & Hl & _); [vm_compute; reflexivity|].
  split; [exact Ho|exact Hl].
Defined.

(* ------------------------------------------------------------------ *)
(** ** Round state machine                                              *)
(* ------------------------------------------------------------------ *)

Lemma estado_eqb_eq (a b : estado_t) : estado_eqb a b = true <-> a = b.
Proof.
  destruct a, b; simpl; split; intros H; try reflexivity; discriminate.
Qed.

Lemma click_preserves_range (st st' : state) (now : string) (b : boton) :
  ui_moderator_click st now b = Done st' -> round_in_range st -> round_in_range st'.
Proof.
  unfold round_in_range. intros H Hr. destruct b; simpl in H.
  - destruct (bonds st) eqn:Eb.
    + injection H as <-. exact Hr.
    + destruct (publish_prices_for_round st now) as [s|e] eqn:Ep; [|discriminate].
      injection H as <-.
      destruct (publish_prices_for_round_ok st now s Ep) as (new & _ & ->). exact Hr.
  - injection H as <-. exact Hr.
  - destruct (estado_eqb _ _); [|discriminate].
    destruct (Z.ltb_spec (ronda_actual (game st)) (rondas_totales (game st)));
      [|discriminate].
    injection H as <-. simpl. lia.
  - destruct (estado_eqb _ _); [|discriminate].
    destruct (Z.ltb_spec (ronda_actual (game st)) (rondas_totales (game st)));
      [discriminate|].
    injection H as <-. exact Hr.
Qed.

Lemma run_clicks_reachable (st0 st st' : state) (l : list (string * boton)) :
  reachable st0 st -> run_clicks st l = Some st' -> reachable st0 st'.
Proof.
  revert st. induction l as [|[now b] l IH]; intros st Hr H; simpl in H.
  - injection H as <-. exact Hr.
  - destruct (ui_moderator_click st now b) as [| |s] eqn:E; try discriminate.
    apply (IH s); [|exact H]. exact (reach_click st0 st now b s Hr E).
Qed.

(** C6 as stated fails: with trading closed, round 3 and total rounds 2 (the
    total was lowered by the moderator's number input), "Finalizar juego" is
    on the page and leads to FIN although the round is not the total. *)
Lemma finalize_permitted_past_total :
  reachable st_lobby st_round3_closed
  /\ ui_moderator_set_rondas_totales st_round3_closed 2 = Some st_total_lowered
  /\ estado (game st_total_lowered) = TRADING_OFF
  /\ ronda_actual (game st_total_lowered) = 3%Z
  /\ rondas_totales (game st_total_lowered) = 2%Z
  /\ ui_moderator_click st_total_lowered "t14" BtnFinalizar
     = Done (with_game st_total_lowered (set_estado (game st_total_lowered) FIN)).
Proof.
  split; [|repeat split; vm_compute; reflexivity].
  apply (run_clicks_reachable st_lobby st_lobby st_round3_closed clicks_to_round3).
  - apply reach_refl.
  - vm_compute. reflexivity.
Qed.

(** C6, amended. With trading closed: "advance" is offered exactly when
    [ronda_actual < rondas_totales] and then adds exactly 1 to the round and
    returns to LOBBY; "finalize" is offered exactly when [ronda_actual >=
    rondas_totales] (the [else] of that test) and leaves the round as it is;
    so advancing from the final round is impossible, and where the round does
    not exceed the total, finalize is offered only at [ronda_actual =
    rondas_totales].  Every button click preserves [1 <= ronda_actual <=
    rondas_totales], hence so does every state reached by clicks from a fresh
    document in LOBBY. *)
Theorem round_state_machine :
  (forall st now,
      estado (game st) = TRADING_OFF ->
      let r := ronda_actual (game st) in
      let total := rondas_totales (game st) in
      ((r < total)%Z ->
       ui_moderator_click st now BtnAvanzar
       = Done (with_game st (set_estado (set_ronda_actual (game st) (r + 1)) LOBBY))
       /\ ui_moderator_click st now BtnFinalizar = NotOffered)
      /\ ((total <= r)%Z ->
          ui_moderator_click st now BtnAvanzar = NotOffered
          /\ ui_moderator_click st now BtnFinalizar
             = Done (with_game st (set_estado (game st) FIN)))
      /\ (forall st', ui_moderator_click st now BtnAvanzar = Done st' ->
                      (r < total)%Z
                      /\ ronda_actual (game st') = (r + 1)%Z
                      /\ rondas_totales (game st') = total
                      /\ estado (game st') = LOBBY)
      /\ (forall st', ui_moderator_click st now BtnFinalizar = Done st' ->
                      (total <= r)%Z
                      /\ ((r <= total)%Z -> r = total)
                      /\ ronda_actual (game st') = r
                      /\ estado (game st') = FIN))
  /\ (forall st now b, estado (game st) <> TRADING_OFF ->
                       b = BtnAvanzar \/ b = BtnFinalizar ->
                       ui_moderator_click st now b = NotOffered)
  /\ (forall st now b st',
         ui_moderator_click st now b = Done st' -> round_in_range st -> round_in_range st')
  /\ (forall st0 st, round_in_range st0 -> reachable st0 st -> round_in_range st)
  /\ (forall code now,
         estado (game (load_state_default code now)) = LOBBY
         /\ round_in_range (load_state_default code now)).
Proof.
  split; [|split; [|split; [|split]]].
  - intros st now Hoff r total. subst r total.
    unfold ui_moderator_click. rewrite Hoff. cbn [estado_eqb].
    destruct (Z.ltb_spec (ronda_actual (game st)) (rondas_totales (game st))) as [Hlt|Hge].
    + split; [intros _; split; reflexivity|].
      split; [intros Hge; lia|].
      split; [|intros st' H; discriminate].
      intros st' H. injection H as <-. simpl. repeat split. exact Hlt.
    + split; [intros Hlt; lia|].
      split; [intros _; split; reflexivity|].
      split; [intros st' H; discriminate|].
      intros st' H. injection H as <-. simpl. repeat split; [exact Hge|lia].
  - intros st now b Hne [-> | ->]; unfold ui_moderator_click;
      destruct (estado_eqb (estado (game st)) TRADING_OFF) eqn:E; try reflexivity;
      apply estado_eqb_eq in E; contradiction.
  - intros st now b st'. apply click_preserves_range.
  - intros st0 st H0 Hreach. induction Hreach as [|st now b st' _ IH Hclick].
    + exact H0.
    + exact (click_preserves_range st st' now b Hclick IH).
  - intros code now. split; [reflexivity|]. unfold round_in_range. simpl. lia.
Qed.

(* ------------------------------------------------------------------ *)
(** ** Leaderboard                                                      *)
(* ------------------------------------------------------------------ *)

Lemma find_app_split {A : Type} (f : A -> bool) (l1 l2 : list A) :
  find f (l1 ++ l2) = match find f l1 with
                      | Some x => Some x
                      | None => find f l2
                      end.
Proof.
  induction l1 as [|x l1 IH]; simpl; [reflexivity|]. now destruct (f x).
Qed.

Lemma dict_get_fold_set (ps : list price_t) (d0 : dict) (b : string) :
  dict_get (fold_left (fun d p => dict_set d (p_bond_id p) (precio_mid p)) ps d0) b
  = match find (fun p => String.eqb (p_bond_id p) b) (rev ps) with
    | Some p => Some (precio_mid p)
    | None => dict_get d0 b
    end.
Proof.
  revert d0. induction ps as [|p ps IH]; intros d0; simpl; [reflexivity|].
  rewrite IH, find_app_split.
  destruct (find _ (rev ps)); [reflexivity|].
  simpl. rewrite dict_get_set. now destruct (String.eqb (p_bond_id p) b).
Qed.


Lemma published_mid_none (st : state) (r : Z) (b : string) :
  published_mid st r b = None
  <-> forall p, In p (prices st) -> p_ronda p = r -> p_bond_id p <> b.
Proof.
  unfold published_mid. split.
  - intros H p Hin Hr Hb.
    assert (Hrev : In p (rev (filter (fun p => (p_ronda p =? r)%Z) (prices st)))).
    { apply -> in_rev. apply filter_In. split; [exact Hin|]. now apply Z.eqb_eq. }
    pose proof (find_none _ _ H p Hrev) as Hp. cbv beta in Hp.
    rewrite Hb, String.eqb_refl in Hp. discriminate.
  - intros H. destruct (find _ _) as [p|] eqn:E; [|reflexivity].
    apply find_some in E. destruct E as [Hin Hb].
    apply in_rev in Hin. apply filter_In in Hin. destruct Hin as [Hin Hr].
    apply String.eqb_eq in Hb. apply Z.eqb_eq in Hr.
    exfalso. exact (H p Hin Hr Hb).
Qed.

Lemma desc_trans (a b c : row) : desc a b -> desc b c -> desc a c.
Proof.
  unfold desc. intros Hab Hbc. now apply Qle_trans with (Valor_Portafolio b).
Qed.

Section InsertionSort.

Variable before : row -> row -> bool.
Hypothesis before_true : forall x y, before x y = true -> desc x y.
Hypothesis before_false : forall x y, before x y = false -> desc y x.

Lemma insert_row_perm (x : row) (l : list row) :
  Permutation (x :: l) (insert_row before x l).
Proof.
  induction l as [|y l IH]; simpl; [reflexivity|].
  destruct (before x y); [reflexivity|].
  rewrite perm_swap. now apply perm_skip.
Qed.

Lemma insertion_sort_perm (l : list row) : Permutation l (insertion_sort before l).
Proof.
  induction l as [|x l IH]; simpl; [constructor|].
  rewrite <- insert_row_perm. now apply perm_skip.
Qed.

Lemma insert_row_sorted (x : row) (l : list row) :
  StronglySorted desc l -> StronglySorted desc (insert_row before x l).
Proof.
  induction 1 as [|y l Hs IH Hall]; simpl.
  - repeat constructor.
  - destruct (before x y) eqn:E.
    + constructor; [now constructor|].
      constructor; [now apply before_true|].
      eapply Forall_impl; [|exact Hall].
      intros z Hz. eapply desc_trans; [apply before_true; exact E|exact Hz].
    + constructor; [exact IH|].
      rewrite <- insert_row_perm. constructor; [now apply before_false|exact Hall].
Qed.

Lemma insertion_sort_sorted (l : list row) : StronglySorted desc (insertion_sort before l).
Proof.
  induction l as [|x l IH]; simpl; [constructor|]. now apply insert_row_sorted.
Qed.

Lemma insertion_sort_contract : sort_values_contract (insertion_sort before).
Proof.
  constructor; [apply insertion_sort_perm|apply insertion_sort_sorted].
Qed.

End InsertionSort.

Lemma sort_ties_stable_contract : sort_values_contract sort_ties_stable.
Proof.
  apply insertion_sort_contract; unfold desc; intros x y H.
  - now apply Qle_bool_iff.
  - destruct (Qlt_le_dec (Valor_Portafolio x) (Valor_Portafolio y)) as [Hlt|Hle].
    + now apply Qlt_le_weak.
    + apply Qle_bool_iff in Hle. congruence.
Qed.



Lemma compute_leaderboard_perm_sorted (sort_values : list row -> list row)
      (st : state) (ronda : option Z) :
  sort_values_contract sort_values ->
  Permutation (leaderboard_rows st ronda) (compute_leaderboard sort_values st ronda)
  /\ StronglySorted desc (compute_leaderboard sort_values st ronda).
Proof.
  intros [Hperm Hsorted]. unfold compute_leaderboard.
  destruct (leaderboard_rows st ronda) as [|x l] eqn:E.
  - split; constructor.
  - split; [apply Hperm|apply Hsorted].
Qed.

Lemma valor_posiciones_sum (prices_mid pos : dict) :
  valor_posiciones prices_mid pos
  == Qsum (map (fun bq => snd bq * dict_get_or prices_mid (fst bq) 0) pos).
Proof.
  unfold valor_posiciones.
  rewrite (fold_left_Qsum (fun bq => snd bq * dict_get_or prices_mid (fst bq) 0) pos 0).
  ring.
Qed.















(* ------------------------------------------------------------------ *)
(** ** Default events of the wizard                                     *)
(* ------------------------------------------------------------------ *)

Lemma max_by_spread_first_max (best : bond_t) (bs : list bond_t) :
  (max_by_spread best bs = best
   /\ Forall (fun b => spread_bps b <= spread_bps best) bs)
  \/ (exists pre post,
         bs = pre ++ max_by_spread best bs :: post
         /\ spread_bps best < spread_bps (max_by_spread best bs)
         /\ Forall (fun b => spread_bps b < spread_bps (max_by_spread best bs)) pre
         /\ Forall (fun b => spread_bps b <= spread_bps (max_by_spread best bs)) post).
Proof.
  revert best. induction bs as [|b bs IH]; intros best; simpl.
  - left. split; [reflexivity|constructor].
  - destruct (Qltb (spread_bps best) (spread_bps b)) eqn:E.
    + apply Qltb_lt in E. right.
      destruct (IH b) as [[Heq Hall]|(pre & post & Hbs & Hlt & Hpre & Hpost)].
      * exists [], bs. rewrite Heq. simpl. repeat split; auto.
      * exists (b :: pre), post. rewrite Hbs at 1. simpl. repeat split.
        -- now apply Qlt_trans with (spread_bps b).
        -- constructor; [exact Hlt|exact Hpre].
        -- exact Hpost.
    + apply Qltb_ge in E.
      destruct (IH best) as [[Heq Hall]|(pre & post & Hbs & Hlt & Hpre & Hpost)].
      * left. split; [exact Heq|]. constructor; [exact E|exact Hall].
      * right. exists (b :: pre), post. rewrite Hbs at 1. simpl. repeat split.
        -- exact Hlt.
        -- constructor; [|exact Hpre]. now apply Qle_lt_trans with (spread_bps best).
        -- exact Hpost.
Qed.

(** The bond the wizard targets is the first bond of largest spread. *)
Lemma wizard_target_first_max (b0 : bond_t) (rest : list bond_t) :
  exists pre t post,
    b0 :: rest = pre ++ t :: post
    /\ wizard_target (b0 :: rest) = b_bond_id t
    /\ Forall (fun b => spread_bps b < spread_bps t) pre
    /\ Forall (fun b => spread_bps b <= spread_bps t) post.
Proof.
  unfold wizard_target.
  destruct (max_by_spread_first_max b0 rest)
    as [[Heq Hall]|(pre & post & Hbs & Hlt & Hpre & Hpost)].
  - exists [], b0, rest. rewrite Heq. simpl. repeat split; auto.
  - exists (b0 :: pre), (max_by_spread b0 rest), post. simpl. repeat split.
    + now rewrite Hbs at 1.
    + constructor; [exact Hlt|exact Hpre].
    + exact Hpost.
Qed.

(** [ensure_events_from_wizard] leaves a document that already has events
    untouched, changes nothing but the event list otherwise, and is
    idempotent: a second call never adds events again. *)
Theorem ensure_events_from_wizard_idempotent (st : state) :
  ensure_events_from_wizard (ensure_events_from_wizard st) = ensure_events_from_wizard st
  /\ (events st <> [] -> ensure_events_from_wizard st = st)
  /\ (events st = [] -> List.length (events (ensure_events_from_wizard st)) = 3%nat)
  /\ Forall (fun e => publicado e = false \/ In e (events st))
            (events (ensure_events_from_wizard st))
  /\ game (ensure_events_from_wizard st) = game st
  /\ bonds (ensure_events_from_wizard st) = bonds st
  /\ prices (ensure_events_from_wizard st) = prices st
  /\ teams (ensure_events_from_wizard st) = teams st
  /\ orders (ensure_events_from_wizard st) = orders st
  /\ ledger (ensure_events_from_wizard st) = ledger st.
Proof.
  unfold ensure_events_from_wizard.
  destruct (events st) as [|e es] eqn:E.
  - simpl. repeat split; try congruence.
    repeat constructor; now left.
  - rewrite E. repeat split; try congruence.
    apply Forall_forall. intros x Hx. now right.
Qed.

(** On a document without events, the wizard's events give every bond the
    yield [spread + 75 bps] in round 1 and [spread - 40 bps] in round 2; in
    round 3 the bond named by the wizard's target -- the first bond of largest
    spread, or "B1" when no bond is loaded -- gets [spread + 120 bps] and every
    other bond its bare spread, as in every other round. *)
Theorem wizard_default_yields (st : state) (b : bond_t) :
  events st = [] ->
  let evs := events (ensure_events_from_wizard st) in
  bond_ytm evs 1 b == (spread_bps b + 75) / 10000
  /\ bond_ytm evs 2 b == (spread_bps b - 40) / 10000
  /\ bond_ytm evs 3 b
     == (spread_bps b
         + (if String.eqb (wizard_target (bonds st)) (b_bond_id b) then 120 else 0)) / 10000
  /\ (forall r, r <> 1%Z -> r <> 2%Z -> r <> 3%Z -> bond_ytm evs r b == spread_bps b / 10000)
  /\ (bonds st = [] -> wizard_target (bonds st) = "B1"%string)
  /\ (bonds st <> [] ->
      exists pre t post,
        bonds st = pre ++ t :: post
        /\ wizard_target (bonds st) = b_bond_id t
        /\ Forall (fun b' => spread_bps b' < spread_bps t) pre
        /\ Forall (fun b' => spread_bps b' <= spread_bps t) post).
Proof.
  intros Hev evs. subst evs. unfold ensure_events_from_wizard. rewrite Hev.
  cbn [events with_events].
  split; [|split; [|split; [|split; [|split]]]].
  - rewrite bond_ytm_formula. unfold market_delta, idios_delta. simpl. field.
  - rewrite bond_ytm_formula. unfold market_delta, idios_delta. simpl. field.
  - rewrite bond_ytm_formula. unfold market_delta, idios_delta.
    generalize (wizard_target (bonds st)). intros tgt.
    cbn -[String.eqb Qplus Qdiv].
    destruct (String.eqb tgt (b_bond_id b)); cbn -[Qplus Qdiv];
      (apply Qdiv_comp; [ring|reflexivity]).
  - intros r H1 H2 H3. rewrite bond_ytm_formula. unfold market_delta, idios_delta.
    assert (E1 : (1 =? r)%Z = false) by (apply Z.eqb_neq; congruence).
    assert (E2 : (2 =? r)%Z = false) by (apply Z.eqb_neq; congruence).
    assert (E3 : (3 =? r)%Z = false) by (apply Z.eqb_neq; congruence).
    cbn -[Z.eqb Qplus Qdiv]. rewrite E1, E2, E3. cbn -[Qplus Qdiv].
    apply Qdiv_comp; [ring|reflexivity].
  - intros Hb. now rewrite Hb.
  - intros Hb. destruct (bonds st) as [|b0 rest]; [congruence|].
    apply wizard_target_first_max.
Qed.

Lemma wizard_default_yields_witness :
  bond_ytm (events (ensure_events_from_wizard (with_events st_lobby []))) 3
           (nth 2 ex_bonds bond_B1)
  == (220 + 120) / 10000
  /\ wizard_target ex_bonds = "B3"%string.
Proof.
  split; [|reflexivity].
  destruct (wizard_default_yields (with_events st_lobby []) (nth 2 ex_bonds bond_B1) eq_refl)
    as (_ & _ & H3 & _).
  rewrite H3. vm_compute. reflexivity.
Defined.

(* ------------------------------------------------------------------ *)
(** ** Team registration                                                *)
(* ------------------------------------------------------------------ *)

Lemma string_of_nat_inj (n m : nat) : string_of_nat n = string_of_nat m -> n = m.
Proof.
  assert (Hinv : forall k,
             option_map Nat.of_uint (NilZero.uint_of_string (string_of_nat k)) = Some k).
  { intros k. unfold string_of_nat.
    pose proof (Unsigned.of_to k) as Hk.
    destruct (Nat.to_uint k) eqn:E;
      try (rewrite NilZero.usu by discriminate; simpl; now rewrite Hk).
    simpl in *. now rewrite <- Hk. }
  intros H. pose proof (Hinv n) as Hn. rewrite H, Hinv in Hn. now injection Hn.
Qed.

Lemma team_id_of_inj (n m : nat) : team_id_of n = team_id_of m -> n = m.
Proof.
  unfold team_id_of. simpl. intros H. injection H as H. now apply string_of_nat_inj.
Qed.

Lemma NoDup_map_team_id_of (l : list nat) : NoDup l -> NoDup (map team_id_of l).
Proof.
  induction 1 as [|x l Hx _ IH]; simpl; constructor; [|exact IH].
  intros Hin. apply in_map_iff in Hin. destruct Hin as (y & Hy & Hin).
  apply team_id_of_inj in Hy. now subst y.
Qed.

Lemma team_get_none (st : state) (name : string) :
  team_get st name = None <-> ~ In name (map team_name (teams st)).
Proof.
  unfold team_get. split.
  - intros H Hin. apply in_map_iff in Hin. destruct Hin as (t & Ht & Hin).
    pose proof (find_none _ _ H t Hin) as Hf. cbv beta in Hf.
    rewrite Ht, String.eqb_refl in Hf. discriminate.
  - intros H. destruct (find _ _) as [t|] eqn:E; [|reflexivity].
    apply find_some in E. destruct E as [Hin Hn]. apply String.eqb_eq in Hn.
    exfalso. apply H. apply in_map_iff. now exists t.
Qed.

Lemma team_get_some (st : state) (name : string) (t : team_t) :
  team_get st name = Some t -> In t (teams st) /\ team_name t = name.
Proof.
  unfold team_get. intros H. apply find_some in H. destruct H as [Hin Hn].
  now apply String.eqb_eq in Hn.
Qed.

Lemma ids_sequential_fresh (st : state) :
  ids_sequential st ->
  ~ In (team_id_of (List.length (teams st) + 1)) (map team_id (teams st)).
Proof.
  unfold ids_sequential. intros -> Hin.
  apply in_map_iff in Hin. destruct Hin as (i & Hi & Hin).
  apply team_id_of_inj in Hi. apply in_seq in Hin. lia.
Qed.

Lemma team_register_fresh (st : state) (now name pin_ : string) :
  team_get st name = None ->
  team_register st now name pin_
  = (mkState (game st) (bonds st) (events st) (prices st)
             (teams st ++ [new_team st now name pin_]) (orders st) (ledger st), true).
Proof.
  intros H. unfold team_register. now rewrite H.
Qed.

Lemma team_register_names_unique (st : state) (now name pin_ : string) :
  names_unique st -> names_unique (fst (team_register st now name pin_)).
Proof.
  intros Hn. destruct (team_get st name) as [t|] eqn:E.
  - unfold team_register. now rewrite E.
  - rewrite (team_register_fresh st now name pin_ E).
    unfold names_unique in *. simpl. rewrite map_app. simpl.
    apply NoDup_app; [exact Hn|repeat constructor; intros []|].
    intros a Ha [<-|[]]. now apply team_get_none in E.
Qed.

(** Registration keeps display names pairwise distinct and identifiers
    [T1, T2, ...] in registration order; identifiers are therefore pairwise
    distinct too.  A fresh document meets both. *)
Theorem team_register_keeps_invariants (st : state) (now name pin_ : string) :
  names_unique st -> ids_sequential st ->
  names_unique (fst (team_register st now name pin_))
  /\ ids_sequential (fst (team_register st now name pin_))
  /\ NoDup (map team_id (teams (fst (team_register st now name pin_)))).
Proof.
  intros Hn Hi.
  assert (Hgoal : forall st', names_unique st' -> ids_sequential st' ->
                              names_unique st' /\ ids_sequential st'
                              /\ NoDup (map team_id (teams st'))).
  { intros st' Hn' Hi'. repeat split; auto.
    rewrite Hi'. apply NoDup_map_team_id_of, seq_NoDup. }
  destruct (team_get st name) as [t|] eqn:E.
  - unfold team_register. rewrite E. simpl. now apply Hgoal.
  - rewrite (team_register_fresh st now name pin_ E). simpl. apply Hgoal.
    + unfold names_unique in *. simpl. rewrite map_app. simpl.
      apply NoDup_app; [exact Hn|repeat constructor; intros []|].
      intros a Ha [<-|[]]. now apply team_get_none in E.
    + unfold ids_sequential in *. simpl.
      rewrite map_app, last_length, seq_S, map_app, Hi. simpl.
      now rewrite Nat.add_1_r.
Qed.

Lemma team_register_keeps_invariants_witness :
  names_unique st_lobby /\ ids_sequential st_lobby
  /\ NoDup (map team_id (teams st_lobby)).
Proof.
  assert (H0 : names_unique (with_scenario (load_state_default "MB-001" "t0")
                                           ex_bonds ex_events)) by constructor.
  assert (I0 : ids_sequential (with_scenario (load_state_default "MB-001" "t0")
                                             ex_bonds ex_events)) by reflexivity.
  destruct (team_register_keeps_invariants _ "t1" "Alfa" "" H0 I0) as (H1 & I1 & _).
  exact (team_register_keeps_invariants _ "t2" "Beta" "" H1 I1).
Defined.

Lemma team_register_fresh_get (st : state) (now name pin_ : string) :
  team_get st name = None ->
  team_get (fst (team_register st now name pin_)) name = Some (new_team st now name pin_)
  /\ (forall n, n <> name ->
                team_get (fst (team_register st now name pin_)) n = team_get st n).
Proof.
  intros H. rewrite (team_register_fresh st now name pin_ H). simpl. split.
  - unfold team_get in *. simpl. rewrite find_app_split, H. simpl.
    now rewrite String.eqb_refl.
  - intros n Hn. unfold team_get. simpl. rewrite find_app_split.
    destruct (find _ (teams st)); [reflexivity|]. simpl.
    destruct (String.eqb_spec name n); [congruence|reflexivity].
Qed.

(** A name already registered is refused and the document is returned as it
    was.  A new name adds exactly one team at the end of the list, with the
    next identifier and the game's initial cash; the new name then resolves to
    that team and every other name resolves as before. *)
Theorem team_register_lookup (st : state) (now name pin_ : string) :
  (forall t, team_get st name = Some t -> team_register st now name pin_ = (st, false))
  /\ (team_get st name = None ->
      snd (team_register st now name pin_) = true
      /\ teams (fst (team_register st now name pin_))
         = teams st ++ [new_team st now name pin_]
      /\ team_get (fst (team_register st now name pin_)) name
         = Some (new_team st now name pin_)
      /\ (forall n, n <> name ->
                    team_get (fst (team_register st now name pin_)) n = team_get st n)
      /\ orders (fst (team_register st now name pin_)) = orders st
      /\ ledger (fst (team_register st now name pin_)) = ledger st
      /\ prices (fst (team_register st now name pin_)) = prices st
      /\ game (fst (team_register st now name pin_)) = game st).
Proof.
  split.
  - intros t H. unfold team_register. now rewrite H.
  - intros H. destruct (team_register_fresh_get st now name pin_ H) as [Hget Hothers].
    split; [|split; [|split; [exact Hget|split; [exact Hothers|]]]];
      rewrite (team_register_fresh st now name pin_ H); simpl; auto.
Qed.

Lemma fold_ledger_other (tid : string) (ls : list ledger_t) (c : Q) :
  (forall l, In l ls -> l_team_id l <> tid) -> fold_left (ledger_step tid) ls c = c.
Proof.
  revert c. induction ls as [|l ls IH]; intros c H; simpl; [reflexivity|].
  unfold ledger_step at 2.
  destruct (String.eqb_spec (l_team_id l) tid) as [Heq|_].
  - exfalso. exact (H l (or_introl eq_refl) Heq).
  - apply IH. intros l' Hl'. apply H. now right.
Qed.

Lemma fold_orders_other (tid : string) (os : list order_t) (acc : dict * Q) :
  (forall o, In o os -> o_team_id o <> tid) -> fold_left (order_step tid) os acc = acc.
Proof.
  revert acc. induction os as [|o os IH]; intros [pos c] H; [reflexivity|].
  cbn [fold_left]. rewrite order_step_eq. unfold of_team.
  destruct (String.eqb_spec (o_team_id o) tid) as [Heq|_].
  - exfalso. exact (H o (or_introl eq_refl) Heq).
  - apply IH. intros o' Ho'. apply H. now right.
Qed.

(** A team registered on a document whose identifiers are sequential and
    whose orders and ledger carry only identifiers of registered teams starts
    with no position and exactly the game's initial cash; the history still
    names registered teams only, and every other name reconstructs as before. *)
Theorem new_team_starts_with_initial_cash (st : state) (now name pin_ : string) :
  team_get st name = None -> ids_sequential st -> history_of_teams st ->
  team_positions_and_cash (fst (team_register st now name pin_)) name
  = ([], g_cash_inicial (game st))
  /\ history_of_teams (fst (team_register st now name pin_))
  /\ (forall n, n <> name ->
                team_positions_and_cash (fst (team_register st now name pin_)) n
                = team_positions_and_cash st n).
Proof.
  intros Hnone Hids [Ho Hl].
  pose proof (ids_sequential_fresh st Hids) as Hfresh.
  destruct (team_register_fresh_get st now name pin_ Hnone) as [Hget Hothers].
  assert (Hteams : teams (fst (team_register st now name pin_))
                   = teams st ++ [new_team st now name pin_])
    by now rewrite (team_register_fresh st now name pin_ Hnone).
  assert (Hord : orders (fst (team_register st now name pin_)) = orders st)
    by now rewrite (team_register_fresh st now name pin_ Hnone).
  assert (Hled : ledger (fst (team_register st now name pin_)) = ledger st)
    by now rewrite (team_register_fresh st now name pin_ Hnone).
  repeat split.
  - unfold team_positions_and_cash. rewrite Hget, Hord, Hled. simpl.
    rewrite fold_ledger_other, fold_orders_other; [reflexivity| |].
    + intros o Hin Heq. apply Hfresh. rewrite <- Heq. now apply Ho.
    + intros l Hin Heq. apply Hfresh. rewrite <- Heq. now apply Hl.
  - rewrite Hord, Hteams, map_app. intros o Hin. apply in_or_app. left. now apply Ho.
  - rewrite Hled, Hteams, map_app. intros l Hin. apply in_or_app. left. now apply Hl.
  - intros n Hn. unfold team_positions_and_cash. now rewrite Hothers, Hord, Hled.
Qed.

Lemma new_team_starts_with_initial_cash_witness :
  team_positions_and_cash (fst (team_register st_traded "t20" "Gama" "")) "Gama"
  = ([], 1000000).
Proof.
  refine (proj1 (new_team_starts_with_initial_cash st_traded "t20" "Gama" "" _ _ _)).
  - reflexivity.
  - reflexivity.
  - split; intros x Hx; simpl in Hx;
      repeat (destruct Hx as [<-|Hx]; [vm_compute; tauto|]); destruct Hx.
Defined.

(* ------------------------------------------------------------------ *)
(** ** Effect of a fill on the reconstruction                           *)
(* ------------------------------------------------------------------ *)

Lemma reconstruction_after_append (st : state) (name : string) (o : order_t) :
  team_positions_and_cash (with_orders st (orders st ++ [o])) name
  = match team_get st name with
    | Some team => order_step (team_id team) (team_positions_and_cash st name) o
    | None => ([], 0)
    end.
Proof.
  unfold team_positions_and_cash, team_get. cbn [with_orders teams orders ledger].
  destruct (find _ (teams st)) as [team|]; [|reflexivity].
  now rewrite fold_left_app.
Qed.

Lemma exec_order_accepted_inv (st st' : state) (now name b : string) (sd : side_t) (q : Q)
      (msg : mensaje) :
  exec_order st now name sd b q = Ok (st', (true, msg)) ->
  exists team p,
    team_get st name = Some team
    /\ find_price st (ronda_actual (game st)) b = Some p
    /\ st' = with_orders st (orders st ++ [fill st now (team_id team) b sd q (px_of sd p)])
    /\ match sd with
       | BUY => q * precio_ask p + fees_of st q (precio_ask p)
                <= snd (team_positions_and_cash st name)
       | SELL => q <= dict_get_or (fst (team_positions_and_cash st name)) b 0
       end.
Proof.
  intros H. unfold exec_order in H.
  destruct (find_price st (ronda_actual (game st)) b) as [p|] eqn:Hp.
  - destruct sd.
    + rewrite (can_exec_order_buy st name b q p Hp) in H.
      destruct (Qltb _ _) eqn:E; simpl in H; [discriminate|].
      destruct (team_get st name) as [team|]; [|discriminate].
      injection H as <- _. exists team, p. repeat split. now apply Qltb_ge.
    + rewrite (can_exec_order_sell st name b q p Hp) in H.
      destruct (Qltb _ _) eqn:E; simpl in H; [discriminate|].
      destruct (team_get st name) as [team|]; [|discriminate].
      injection H as <- _. exists team, p. repeat split. now apply Qltb_ge.
  - rewrite (can_exec_order_no_price st name sd b q Hp) in H. discriminate.
Qed.

Lemma order_step_own (tid b now : string) (sd : side_t) (q px f : Q) (r : Z)
      (pos : dict) (c : Q) :
  order_step tid (pos, c) (mkOrder now tid b sd q px f r)
  = match sd with
    | BUY => (dict_set pos b (dict_get_or pos b 0 + q), c - (q * px + f))
    | SELL => (dict_set pos b (dict_get_or pos b 0 - q), c + (q * px - f))
    end.
Proof.
  rewrite order_step_eq. unfold of_team. simpl. now rewrite String.eqb_refl.
Qed.

Lemma order_step_foreign (tid : string) (acc : dict * Q) (o : order_t) :
  o_team_id o <> tid -> order_step tid acc o = acc.
Proof.
  intros H. destruct acc as [pos c]. rewrite order_step_eq. unfold of_team.
  now destruct (String.eqb_spec (o_team_id o) tid).
Qed.

(** What a fill does to the books, for the acting team [name] with
    reconstruction [(pos, cash)] before it. *)
Lemma fill_effect (st : state) (now name b : string) (sd : side_t) (q px : Q)
      (team : team_t) :
  team_get st name = Some team ->
  let st' := with_orders st (orders st ++ [fill st now (team_id team) b sd q px]) in
  let pos := fst (team_positions_and_cash st name) in
  let cash := snd (team_positions_and_cash st name) in
  team_positions_and_cash st' name
  = match sd with
    | BUY => (dict_set pos b (dict_get_or pos b 0 + q), cash - (q * px + fees_of st q px))
    | SELL => (dict_set pos b (dict_get_or pos b 0 - q), cash + (q * px - fees_of st q px))
    end
  /\ forall name2,
      (forall team2, team_get st name2 = Some team2 -> team_id team2 <> team_id team) ->
      team_positions_and_cash st' name2 = team_positions_and_cash st name2.
Proof.
  intros Ht st' pos cash. subst st' pos cash. split.
  - rewrite reconstruction_after_append, Ht.
    destruct (team_positions_and_cash st name) as [pos c]. unfold fill.
    apply order_step_own.
  - intros name2 H2. rewrite reconstruction_after_append.
    destruct (team_get st name2) as [team2|] eqn:E2.
    + apply order_step_foreign. simpl. intros Heq. now apply (H2 team2 eq_refl).
    + unfold team_positions_and_cash. now rewrite E2.
Qed.

(** An accepted order changes the acting team's reconstruction by exactly
    its own effect -- a BUY lowers cash by [qty * ask + fees] and raises the
    holding of the bond by [qty], a SELL raises cash by [qty * bid - fees] and
    lowers the holding by [qty] -- leaves its other holdings as they were,
    and leaves the reconstruction of every team with another identifier (and
    of every unregistered name) unchanged. *)
Theorem exec_order_updates_reconstruction
        (st st' : state) (now name b : string) (sd : side_t) (q : Q) (msg : mensaje) :
  exec_order st now name sd b q = Ok (st', (true, msg)) ->
  exists team p,
    team_get st name = Some team
    /\ find_price st (ronda_actual (game st)) b = Some p
    /\ (let cash := snd (team_positions_and_cash st name) in
        let held := dict_get_or (fst (team_positions_and_cash st name)) b 0 in
        let cash' := snd (team_positions_and_cash st' name) in
        let held' := dict_get_or (fst (team_positions_and_cash st' name)) b 0 in
        match sd with
        | BUY => cash' = cash - (q * precio_ask p + fees_of st q (precio_ask p))
                 /\ held' = held + q
        | SELL => cash' = cash + (q * precio_bid p - fees_of st q (precio_bid p))
                  /\ held' = held - q
        end)
    /\ (forall b', b' <> b ->
                   dict_get (fst (team_positions_and_cash st' name)) b'
                   = dict_get (fst (team_positions_and_cash st name)) b')
    /\ (forall name2,
           (forall team2, team_get st name2 = Some team2 -> team_id team2 <> team_id team) ->
           team_positions_and_cash st' name2 = team_positions_and_cash st name2).
Proof.
  intros H. destruct (exec_order_accepted_inv st st' now name b sd q msg H)
    as (team & p & Ht & Hp & -> & _).
  exists team, p. split; [exact Ht|]. split; [exact Hp|].
  destruct (fill_effect st now name b sd q (px_of sd p) team Ht) as [Hown Hothers].
  split; [|split; [|exact Hothers]].
  - cbv zeta. rewrite Hown. destruct sd; simpl; rewrite dict_get_or_set;
      now rewrite String.eqb_refl.
  - intros b' Hb'. rewrite Hown.
    destruct sd; simpl; rewrite dict_get_set;
      destruct (String.eqb_spec b b'); congruence.
Qed.

Lemma exec_order_updates_reconstruction_witness :
  exists st', exec_order st_trading "t4" "Alfa" BUY "B1" 10 = Ok (st', (true,
                MsgEjecutada BUY 10 "B1"
                  (precio_ask (nth 0 (prices st_trading) (mkPrice 0 "" 0 0 0 0 "")))
                  (fees_of st_trading 10
                     (precio_ask (nth 0 (prices st_trading) (mkPrice 0 "" 0 0 0 0 ""))))))
    /\ dict_get_or (fst (team_positions_and_cash st' "Alfa")) "B1" 0 = 0 + 10
    /\ team_positions_and_cash st' "Beta" = team_positions_and_cash st_trading "Beta".
Proof.
  eexists. split; [vm_compute; reflexivity|].
  match goal with
  | |- context [team_positions_and_cash ?s "Alfa"] =>
      destruct (exec_order_updates_reconstruction st_trading s "t4" "Alfa" "B1" BUY 10
                  (MsgEjecutada BUY 10 "B1"
                     (precio_ask (nth 0 (prices st_trading) (mkPrice 0 "" 0 0 0 0 "")))
                     (fees_of st_trading 10
                        (precio_ask (nth 0 (prices st_trading) (mkPrice 0 "" 0 0 0 0 "")))))
                  ltac:(vm_compute; reflexivity))
        as (team & p & Ht & Hp & Heff & _ & Hothers)
  end.
  split.
  - cbv zeta in Heff. exact (proj2 Heff).
  - apply Hothers. intros team2 H2. vm_compute in Ht, H2.
    injection Ht as <-. injection H2 as <-. discriminate.
Defined.

Lemma Qplus_nonneg (a b : Q) : 0 <= a -> 0 <= b -> 0 <= a + b.
Proof.
  intros Ha Hb. apply Qle_trans with (0 + 0); [discriminate|].
  now apply Qplus_le_compat.
Qed.

Lemma Qminus_nonneg (a b : Q) : b <= a -> 0 <= a - b.
Proof.
  intros H. apply Qle_minus_iff in H. exact H.
Qed.

(** An accepted BUY never overdraws and an accepted SELL never sells short:
    after it, the acting team's reconstructed cash (BUY) or holding of the
    bond (SELL) is not negative, whatever the quantity and the prices. *)
Theorem exec_order_no_overdraft_no_short
        (st st' : state) (now name b : string) (sd : side_t) (q : Q) (msg : mensaje) :
  exec_order st now name sd b q = Ok (st', (true, msg)) ->
  match sd with
  | BUY => 0 <= snd (team_positions_and_cash st' name)
  | SELL => 0 <= dict_get_or (fst (team_positions_and_cash st' name)) b 0
  end.
Proof.
  intros H. destruct (exec_order_accepted_inv st st' now name b sd q msg H)
    as (team & p & Ht & Hp & -> & Hok).
  destruct (fill_effect st now name b sd q (px_of sd p) team Ht) as [Hown _].
  rewrite Hown. destruct sd; simpl.
  - simpl in Hok. now apply Qminus_nonneg.
  - rewrite dict_get_or_set, String.eqb_refl. now apply Qminus_nonneg.
Qed.

Lemma exec_order_no_overdraft_no_short_witness :
  exists st', exec_order st_trading "t4" "Alfa" BUY "B1" 800 = Ok (st', (true,
                MsgEjecutada BUY 800 "B1"
                  (precio_ask (nth 0 (prices st_trading) (mkPrice 0 "" 0 0 0 0 "")))
                  (fees_of st_trading 800
                     (precio_ask (nth 0 (prices st_trading) (mkPrice 0 "" 0 0 0 0 ""))))))
    /\ 0 <= snd (team_positions_and_cash st' "Alfa").
Proof.
  eexists. split; [vm_compute; reflexivity|].
  match goal with
  | |- context [team_positions_and_cash ?s "Alfa"] =>
      exact (exec_order_no_overdraft_no_short st_trading s "t4" "Alfa" "B1" BUY 800
               (MsgEjecutada BUY 800 "B1"
                  (precio_ask (nth 0 (prices st_trading) (mkPrice 0 "" 0 0 0 0 "")))
                  (fees_of st_trading 800
                     (precio_ask (nth 0 (prices st_trading) (mkPrice 0 "" 0 0 0 0 "")))))
               ltac:(vm_compute; reflexivity))
  end.
Defined.

(** Solvency is kept by accepted orders of non-negative quantity: if the
    acting team has no negative cash and no negative holding, the bid of the
    bond is not negative and the commission lies between 0 and 10000 bps, the
    same holds after the order. *)
Theorem exec_order_keeps_solvent
        (st st' : state) (now name b : string) (sd : side_t) (q : Q) (msg : mensaje) :
  exec_order st now name sd b q = Ok (st', (true, msg)) ->
  solvent st name ->
  0 <= q ->
  (forall p, find_price st (ronda_actual (game st)) b = Some p -> 0 <= precio_bid p) ->
  0 <= comision_bps (game st) -> comision_bps (game st) <= 10000 ->
  solvent st' name.
Proof.
  intros H [Hcash Hheld] Hq Hbid Hc0 Hc1.
  pose proof (exec_order_accepted_inv st st' now name b sd q msg H)
    as (team & p & Ht & Hp & Hst & Hok).
  pose proof (Hbid p Hp) as Hb. subst st'.
  destruct (fill_effect st now name b sd q (px_of sd p) team Ht) as [Hown _].
  unfold solvent. rewrite Hown. destruct sd; simpl; split.
  - simpl in Hok. now apply Qminus_nonneg.
  - intros b'. rewrite dict_get_or_set. destruct (String.eqb_spec b b') as [<-|_].
    + apply Qplus_nonneg; [apply Hheld|exact Hq].
    + apply Hheld.
  - unfold fees_of.
    setoid_replace (snd (team_positions_and_cash st name)
                    + (q * precio_bid p
                       - q * precio_bid p * (comision_bps (game st) / 10000)))
      with (snd (team_positions_and_cash st name)
            + q * precio_bid p * ((10000 - comision_bps (game st)) / 10000)) by field.
    apply Qplus_nonneg; [exact Hcash|].
    apply Qmult_le_0_compat; [now apply Qmult_le_0_compat|].
    apply Qle_shift_div_l; [reflexivity|]. rewrite Qmult_0_l.
    now apply Qminus_nonneg.
  - intros b'. rewrite dict_get_or_set. destruct (String.eqb_spec b b') as [<-|_].
    + simpl in Hok. now apply Qminus_nonneg.
    + apply Hheld.
Qed.

(** For a name that [team_get] does not find, [exec_order] never records
    anything: an order of positive quantity is rejected (a BUY at a positive
    ask with non-negative commission for lack of cash, a SELL for lack of
    inventory), and a SELL of non-positive quantity passes the inventory test
    and then raises [TypeError] on the missing team. *)
Theorem exec_order_unknown_team (st : state) (now name b : string) (q : Q) :
  team_get st name = None ->
  (forall sd st' r, exec_order st now name sd b q = Ok (st', r) -> st' = st /\ fst r = false)
  /\ (forall p, find_price st (ronda_actual (game st)) b = Some p ->
        (0 < q -> 0 < precio_ask p -> 0 <= comision_bps (game st) ->
         exec_order st now name BUY b q = Ok (st, (false, MsgCashInsuficiente)))
        /\ (0 < q -> exec_order st now name SELL b q = Ok (st, (false, MsgNoPosee)))
        /\ (q <= 0 -> exec_order st now name SELL b q = Raise TypeError)).
Proof.
  intros Hnone.
  assert (Htpc : team_positions_and_cash st name = ([], 0))
    by (unfold team_positions_and_cash; now rewrite Hnone).
  split.
  - intros sd st' [ok msg] H. destruct ok.
    + apply exec_order_accepted_inv in H. destruct H as (team & _ & Ht & _). congruence.
    + apply exec_order_false_state in H. now destruct H as [-> _].
  - intros p Hp. repeat split.
    + intros Hq Hask Hc. eapply exec_order_rejected.
      rewrite (can_exec_order_buy st name b q p Hp), Htpc. simpl.
      assert (E : Qltb 0 (q * precio_ask p + fees_of st q (precio_ask p)) = true).
      { apply Qltb_lt. unfold fees_of.
        apply Qlt_le_trans with (q * precio_ask p + 0).
        - rewrite Qplus_0_r. now apply Qmult_lt_0_compat.
        - apply Qplus_le_r. apply Qmult_le_0_compat.
          + apply Qlt_le_weak. now apply Qmult_lt_0_compat.
          + apply Qle_shift_div_l; [reflexivity|]. now rewrite Qmult_0_l. }
      rewrite E. reflexivity.
    + intros Hq. eapply exec_order_rejected.
      rewrite (can_exec_order_sell st name b q p Hp), Htpc. simpl.
      assert (E : Qltb (dict_get_or [] b 0) q = true) by now apply Qltb_lt.
      rewrite E. reflexivity.
    + intros Hq. unfold exec_order.
      rewrite (can_exec_order_sell st name b q p Hp), Htpc. simpl.
      assert (E : Qltb (dict_get_or [] b 0) q = false) by now apply Qltb_ge.
      rewrite E. simpl. now rewrite Hnone.
Qed.

Lemma exec_order_unknown_team_witness :
  exec_order st_trading "t4" "Nadie" SELL "B1" 0 = Raise TypeError
  /\ exec_order st_trading "t4" "Nadie" SELL "B1" 3 = Ok (st_trading, (false, MsgNoPosee)).
Proof.
  destruct (exec_order_unknown_team st_trading "t4" "Nadie" "B1" 0 eq_refl) as [_ H0].
  destruct (exec_order_unknown_team st_trading "t4" "Nadie" "B1" 3 eq_refl) as [_ H3].
  split.
  - apply (H0 (nth 0 (prices st_trading) (mkPrice 0 "" 0 0 0 0 ""))); [reflexivity|].
    discriminate.
  - apply (H3 (nth 0 (prices st_trading) (mkPrice 0 "" 0 0 0 0 ""))); reflexivity.
Defined.

Lemma exec_order_keeps_solvent_witness :
  exists st', exec_order st_trading "t4" "Alfa" BUY "B1" 10 = Ok (st', (true,
                MsgEjecutada BUY 10 "B1"
                  (precio_ask (nth 0 (prices st_trading) (mkPrice 0 "" 0 0 0 0 "")))
                  (fees_of st_trading 10
                     (precio_ask (nth 0 (prices st_trading) (mkPrice 0 "" 0 0 0 0 ""))))))
    /\ solvent st' "Alfa".
Proof.
  eexists. split; [vm_compute; reflexivity|].
  match goal with
  | |- solvent ?s _ =>
      apply (exec_order_keeps_solvent st_trading s "t4" "Alfa" "B1" BUY 10
               (MsgEjecutada BUY 10 "B1"
                  (precio_ask (nth 0 (prices st_trading) (mkPrice 0 "" 0 0 0 0 "")))
                  (fees_of st_trading 10
                     (precio_ask (nth 0 (prices st_trading) (mkPrice 0 "" 0 0 0 0 ""))))))
  end.
  - vm_compute. reflexivity.
  - split; [vm_compute; discriminate|intros b'; vm_compute; discriminate].
  - discriminate.
  - intros p Hp. vm_compute in Hp. injection Hp as <-. vm_compute. discriminate.
  - discriminate.
  - discriminate.
Defined.

(* ------------------------------------------------------------------ *)
(** ** Dictionaries built by the engine                                 *)
(* ------------------------------------------------------------------ *)

Lemma dict_set_keys (d : dict) (k : string) (v : Q) (k' : string) :
  In k' (map fst (dict_set d k v)) <-> k' = k \/ In k' (map fst d).
Proof.
  induction d as [|[k0 v0] d IH]; simpl.
  - intuition.
  - destruct (String.eqb_spec k0 k) as [->|Hne]; simpl; [intuition|].
    rewrite IH. intuition.
Qed.

Lemma dict_set_nodup (d : dict) (k : string) (v : Q) :
  NoDup (map fst d) -> NoDup (map fst (dict_set d k v)).
Proof.
  induction d as [|[k0 v0] d IH]; simpl; intros H.
  - repeat constructor. intros [].
  - inversion H as [|? ? Hnin Hd]; subst.
    destruct (String.eqb_spec k0 k) as [->|Hne]; simpl.
    + now constructor.
    + constructor; [|now apply IH].
      rewrite dict_set_keys. intros [Heq|Hin]; [congruence|contradiction].
Qed.

Lemma dict_get_in_keys (d : dict) (k : string) :
  In k (map fst d) <-> dict_get d k <> None.
Proof.
  induction d as [|[k0 v0] d IH]; simpl.
  - intuition.
  - destruct (String.eqb_spec k0 k) as [->|Hne].
    + split; [discriminate|auto].
    + rewrite <- IH. intuition.
Qed.

Lemma fold_orders_nodup (tid : string) (os : list order_t) (acc : dict * Q) :
  NoDup (map fst (fst acc)) ->
  NoDup (map fst (fst (fold_left (order_step tid) os acc))).
Proof.
  revert acc. induction os as [|o os IH]; intros [pos c] H; [exact H|].
  cbn [fold_left]. apply IH. rewrite order_step_eq.
  destruct (of_team tid o); [|exact H].
  destruct (side o); simpl; now apply dict_set_nodup.
Qed.

Lemma fold_prices_nodup (ps : list price_t) (d : dict) :
  NoDup (map fst d) ->
  NoDup (map fst (fold_left (fun d p => dict_set d (p_bond_id p) (precio_mid p)) ps d)).
Proof.
  revert d. induction ps as [|p ps IH]; intros d H; [exact H|].
  simpl. apply IH. now apply dict_set_nodup.
Qed.

(** Both dictionaries the engine builds list each bond once: the positions of
    a team hold exactly the bonds the team has orders for, and the mid prices
    of a round hold exactly the bonds with a price point in that round, each
    with the mid of the latest such price point. *)
Theorem engine_dicts_keys (st : state) (name : string) (r : Z) :
  NoDup (map fst (fst (team_positions_and_cash st name)))
  /\ NoDup (map fst (get_prices_dict st r))
  /\ (forall b, In b (map fst (get_prices_dict st r))
                <-> exists p, In p (prices st) /\ p_ronda p = r /\ p_bond_id p = b)
  /\ (forall b, dict_get (get_prices_dict st r) b
                = option_map precio_mid (published_mid st r b))
  /\ (forall team, team_get st name = Some team ->
        forall b, In b (map fst (fst (team_positions_and_cash st name)))
                  <-> exists o, In o (orders st) /\ o_team_id o = team_id team
                                /\ o_bond_id o = b).
Proof.
  split; [|split; [|split; [|split]]].
  - unfold team_positions_and_cash. destruct (team_get st name); [|constructor].
    apply fold_orders_nodup. constructor.
  - unfold get_prices_dict. apply fold_prices_nodup. constructor.
  - intros b. rewrite dict_get_in_keys. unfold get_prices_dict.
    rewrite dict_get_fold_set. fold (published_mid st r b). split.
    + intros H. destruct (published_mid st r b) as [p|] eqn:E; [|now simpl in H].
      unfold published_mid in E. apply find_some in E. destruct E as [Hin Hb].
      apply in_rev, filter_In in Hin. destruct Hin as [Hin Hr].
      exists p. repeat split; [exact Hin|now apply Z.eqb_eq|now apply String.eqb_eq].
    + intros (p & Hin & Hr & Hb) H.
      destruct (published_mid st r b) as [p'|] eqn:E; [discriminate|].
      exact (proj1 (published_mid_none st r b) E p Hin Hr Hb).
  - intros b. unfold get_prices_dict. rewrite dict_get_fold_set.
    fold (published_mid st r b). now destruct (published_mid st r b).
  - intros team Ht b. rewrite dict_get_in_keys.
    unfold team_positions_and_cash. rewrite Ht. rewrite fold_orders_keys. split.
    + intros H.
      assert (Hex : Exists (fun o => of_team (team_id team) o = true /\ o_bond_id o = b)
                           (orders st)).
      { apply Exists_exists.
        induction (orders st) as [|o os IH].
        - exfalso. apply H. split; [reflexivity|intros o []].
        - destruct (of_team (team_id team) o) eqn:Eo;
            [destruct (String.eqb_spec (o_bond_id o) b) as [Eb|Eb]|].
          + exists o. split; [now left|auto].
          + destruct IH as (o' & Hin & Ho').
            * intros [_ Hall]. apply H. split; [reflexivity|].
              intros o' [<-|Hin] Ho'; [exact Eb|now apply Hall].
            * exists o'. split; [now right|exact Ho'].
          + destruct IH as (o' & Hin & Ho').
            * intros [_ Hall]. apply H. split; [reflexivity|].
              intros o' [<-|Hin] Ho'; [congruence|now apply Hall].
            * exists o'. split; [now right|exact Ho']. }
      apply Exists_exists in Hex. destruct Hex as (o & Hin & Ho & Hb).
      exists o. repeat split; auto. now apply String.eqb_eq in Ho.
    + intros (o & Hin & Ho & Hb) [_ Hall]. apply (Hall o Hin); [|exact Hb].
      unfold of_team. rewrite Ho. apply String.eqb_refl.
Qed.

(* ------------------------------------------------------------------ *)
(** ** Price points: uniqueness, coverage, re-publication               *)
(* ------------------------------------------------------------------ *)

Lemma NoDup_map_filter {A B : Type} (g : A -> B) (f : A -> bool) (l : list A) :
  NoDup (map g l) -> NoDup (map g (filter f l)).
Proof.
  induction l as [|x l IH]; simpl; intros H; [constructor|].
  inversion H as [|? ? Hnin Hd]; subst.
  destruct (f x); simpl; [|now apply IH].
  constructor; [|now apply IH].
  intros Hin. apply Hnin. apply in_map_iff in Hin. destruct Hin as (y & Hy & Hin).
  apply in_map_iff. exists y. split; [exact Hy|]. now apply filter_In in Hin.
Qed.

Lemma NoDup_map_eq {A B : Type} (g : A -> B) (l : list A) (x y : A) :
  NoDup (map g l) -> In x l -> In y l -> g x = g y -> x = y.
Proof.
  induction l as [|z l IH]; simpl; intros H Hx Hy Hg; [contradiction|].
  inversion H as [|? ? Hnin Hd]; subst.
  destruct Hx as [<-|Hx], Hy as [<-|Hy]; auto.
  - exfalso. apply Hnin. rewrite Hg. now apply in_map.
  - exfalso. apply Hnin. rewrite <- Hg. now apply in_map.
Qed.

Lemma find_the_only {A : Type} (f : A -> bool) (l : list A) (x : A) :
  In x l -> f x = true -> (forall y, In y l -> f y = true -> y = x) -> find f l = Some x.
Proof.
  induction l as [|z l IH]; simpl; intros Hx Hfx Hall; [contradiction|].
  destruct (f z) eqn:Ez.
  - f_equal. apply Hall; auto.
  - destruct Hx as [->|Hx]; [congruence|]. apply IH; auto.
Qed.

Lemma new_prices_keys (st : state) (now : string) (new : list price_t) :
  new_prices st now = Ok new ->
  map price_key new = map (fun b => (ronda_actual (game st), b_bond_id b)) (bonds st).
Proof.
  unfold new_prices. rewrite map_result_Forall2.
  induction 1 as [|b p bs ps Hp _ IH]; simpl; [reflexivity|].
  apply price_point_fields in Hp. destruct Hp as (Hr & Hid & _).
  unfold price_key at 1. now rewrite Hr, Hid, IH.
Qed.

Lemma NoDup_round_keys (r : Z) (bs : list bond_t) :
  NoDup (map b_bond_id bs) -> NoDup (map (fun b => (r, b_bond_id b)) bs).
Proof.
  induction bs as [|b bs IH]; simpl; intros H; [constructor|].
  inversion H as [|? ? Hnin Hd]; subst. constructor; [|now apply IH].
  intros Hin. apply Hnin. apply in_map_iff in Hin. destruct Hin as (b' & Hk & Hin).
  apply in_map_iff. exists b'. split; [congruence|exact Hin].
Qed.

(** Publication keeps "at most one price point per (round, bond)" as long as
    the scenario's bond identifiers are pairwise distinct. *)
Theorem publish_keeps_price_keys_unique (st st' : state) (now : string) :
  price_keys_unique st ->
  NoDup (map b_bond_id (bonds st)) ->
  publish_prices_for_round st now = Ok st' ->
  price_keys_unique st'.
Proof.
  intros Hu Hb H.
  destruct (publish_prices_for_round_ok st now st' H) as (new & Hnew & ->).
  unfold price_keys_unique in *. cbn [prices]. rewrite map_app.
  apply NoDup_app.
  - now apply NoDup_map_filter.
  - rewrite (new_prices_keys st now new Hnew). now apply NoDup_round_keys.
  - intros k Hold Hin.
    apply in_map_iff in Hold. destruct Hold as (p & Hk & Hp).
    apply filter_In in Hp. destruct Hp as [_ Hr].
    apply negb_true_iff, Z.eqb_neq in Hr.
    apply in_map_iff in Hin. destruct Hin as (p' & Hk' & Hp').
    pose proof (new_prices_round st now new Hnew) as Hall.
    rewrite Forall_forall in Hall. apply Hall in Hp'.
    apply Hr. unfold price_key in *. congruence.
Qed.

Lemma publish_keeps_price_keys_unique_witness : price_keys_unique st_round2.
Proof.
  apply (publish_keeps_price_keys_unique st_round2_lobby st_round2 "t9").
  - unfold price_keys_unique. vm_compute.
    repeat (constructor; [simpl; intuition discriminate|]). constructor.
  - vm_compute. repeat (constructor; [simpl; intuition discriminate|]). constructor.
  - vm_compute. reflexivity.
Defined.

(** With at most one price point per (round, bond), the price point an order
    executes against ([find_price], the first match) is the one the
    leaderboard values the position at ([get_prices_dict], the last match). *)
Theorem execution_and_valuation_price_agree (st : state) (r : Z) (b : string) :
  price_keys_unique st ->
  find_price st r b = published_mid st r b.
Proof.
  intros Hu. unfold find_price.
  destruct (find _ (prices st)) as [x|] eqn:E.
  - apply find_some in E. destruct E as [Hin Hf].
    apply andb_true_iff in Hf. destruct Hf as [Hr Hb].
    symmetry. unfold published_mid. apply find_the_only.
    + apply -> in_rev. apply filter_In. now split.
    + exact Hb.
    + intros y Hy Hyb. apply in_rev, filter_In in Hy. destruct Hy as [Hy Hyr].
      apply (NoDup_map_eq price_key (prices st)); auto.
      apply Z.eqb_eq in Hr, Hyr. apply String.eqb_eq in Hb, Hyb.
      unfold price_key. congruence.
  - symmetry. apply published_mid_none. intros p Hp Hr Hb.
    pose proof (find_none _ _ E p Hp) as Hf. cbv beta in Hf.
    rewrite Hr, Hb, Z.eqb_refl, String.eqb_refl in Hf. discriminate.
Qed.

Lemma execution_and_valuation_price_agree_witness :
  find_price st_round2 2 "B2" = published_mid st_round2 2 "B2".
Proof.
  apply (execution_and_valuation_price_agree st_round2 2 "B2").
  unfold price_keys_unique. vm_compute.
  repeat (constructor; [simpl; intuition discriminate|]). constructor.
Defined.

Lemma price_bond_mid_floor (bond : bond_t) (y q : Q) (e : Z) (v : Q) :
  price_bond_mid bond y q e = Ok v -> 1 # 100 <= v.
Proof.
  unfold price_bond_mid.
  destruct (py_div 1 _) as [dt|]; cbn [bind]; [|discriminate].
  destruct (py_div _ dt) as [n|]; cbn [bind]; [|discriminate].
  destruct (py_div (tasa_cupon_anual bond) _) as [cf|]; cbn [bind]; [|discriminate].
  destruct (py_div y _) as [i|]; cbn [bind]; [|discriminate].
  destruct (for_each _ _ _) as [pv|]; cbn [bind]; [|discriminate].
  destruct (py_div (valor_nominal bond) _) as [last|]; cbn [bind]; [|discriminate].
  intros H. injection H as <-. apply py_max_lower.
Qed.

Lemma bid_ask_bounds (mid bid_bp_ ask_bp_ : Q) :
  0 <= mid ->
  (0 <= bid_bp_ -> fst (bid_ask_from_mid mid bid_bp_ ask_bp_) <= mid)
  /\ (0 <= ask_bp_ -> mid <= snd (bid_ask_from_mid mid bid_bp_ ask_bp_)).
Proof.
  intros Hm. unfold bid_ask_from_mid. simpl. split; intros Hs.
  - apply Qle_minus_iff.
    setoid_replace (mid + - (mid * (1 - bid_bp_ / 10000)))
      with (mid * bid_bp_ * (1 # 10000)) by field.
    apply Qmult_le_0_compat; [now apply Qmult_le_0_compat|discriminate].
  - apply Qle_minus_iff.
    setoid_replace (mid * (1 + ask_bp_ / 10000) + - mid)
      with (mid * ask_bp_ * (1 # 10000)) by field.
    apply Qmult_le_0_compat; [now apply Qmult_le_0_compat|discriminate].
Qed.

Lemma Forall2_in_r {A B : Type} (R : A -> B -> Prop) (xs : list A) (ys : list B) (y : B) :
  Forall2 R xs ys -> In y ys -> exists x, In x xs /\ R x y.
Proof.
  induction 1 as [|x0 y0 xs ys HR _ IH]; simpl; [intros []|].
  intros [<-|Hin].
  - exists x0. auto.
  - destruct (IH Hin) as (x & Hx & Hxy). exists x. auto.
Qed.

Lemma Forall2_in_l {A B : Type} (R : A -> B -> Prop) (xs : list A) (ys : list B) (x : A) :
  Forall2 R xs ys -> In x xs -> exists y, In y ys /\ R x y.
Proof.
  induction 1 as [|x0 y0 xs ys HR _ IH]; simpl; [intros []|].
  intros [<-|Hin].
  - exists y0. auto.
  - destruct (IH Hin) as (y & Hy & Hxy). exists y. auto.
Qed.

Lemma find_in_new_prices (st : state) (new : list price_t) (b : string) :
  Forall (fun p => p_ronda p = ronda_actual (game st)) new ->
  find (fun p => (p_ronda p =? ronda_actual (game st))%Z && String.eqb (p_bond_id p) b)
       (filter (fun p => negb (p_ronda p =? ronda_actual (game st))%Z) (prices st) ++ new)
  = find (fun p => String.eqb (p_bond_id p) b) new.
Proof.
  intros Hnew. rewrite find_app_split.
  replace (find _ (filter _ (prices st))) with (@None price_t).
  - induction Hnew as [|p new Hp _ IH]; simpl; [reflexivity|].
    rewrite Hp, Z.eqb_refl. simpl. now rewrite IH.
  - symmetry. induction (prices st) as [|p ps IH]; simpl; [reflexivity|].
    destruct (p_ronda p =? ronda_actual (game st))%Z eqn:E; simpl; [exact IH|].
    now rewrite E.
Qed.

(** After a successful publication every bond of the scenario has a price
    point for the current round, so an order for it is never refused for lack
    of a price; the price point found has a mid of at least [0.01], and with
    non-negative spreads its bid and ask lie on either side of the mid. *)
Theorem published_prices_cover_bonds (st st' : state) (now : string) (b : bond_t) :
  publish_prices_for_round st now = Ok st' ->
  In b (bonds st) ->
  exists p,
    find_price st' (ronda_actual (game st')) (b_bond_id b) = Some p
    /\ p_ronda p = ronda_actual (game st) /\ p_bond_id p = b_bond_id b
    /\ 1 # 100 <= precio_mid p
    /\ (0 <= bid_bp (game st) -> precio_bid p <= precio_mid p)
    /\ (0 <= ask_bp (game st) -> precio_mid p <= precio_ask p)
    /\ (forall name sd q,
           snd (fst (fst (can_exec_order st' name sd (b_bond_id b) q))) <> MsgNoPrecio).
Proof.
  intros H Hb.
  destruct (publish_prices_for_round_ok st now st' H) as (new & Hnew & Hst).
  pose proof (new_prices_round st now new Hnew) as Hround.
  assert (Hfind : find_price st' (ronda_actual (game st')) (b_bond_id b)
                  = find (fun p => String.eqb (p_bond_id p) (b_bond_id b)) new).
  { rewrite Hst. unfold find_price. cbn [game prices set_estado ronda_actual].
    apply (find_in_new_prices st new (b_bond_id b) Hround). }
  unfold new_prices in Hnew. apply map_result_Forall2 in Hnew.
  destruct (Forall2_in_l _ _ _ b Hnew Hb) as (p0 & Hp0 & Hpp0).
  apply price_point_fields in Hpp0. destruct Hpp0 as (_ & Hid0 & _).
  destruct (find (fun p => String.eqb (p_bond_id p) (b_bond_id b)) new) as [p|] eqn:E.
  - apply find_some in E. destruct E as [Hin Hid]. apply String.eqb_eq in Hid.
    destruct (Forall2_in_r _ _ _ p Hnew Hin) as (b' & Hb' & Hpp).
    apply price_point_fields in Hpp. destruct Hpp as (Hr & _ & _ & Hmid & Hba).
    apply price_bond_mid_floor in Hmid.
    assert (H0 : 0 <= precio_mid p)
      by (apply Qle_trans with (1 # 100); [discriminate|exact Hmid]).
    destruct (bid_ask_bounds (precio_mid p) (bid_bp (game st)) (ask_bp (game st)) H0)
      as [Hbid Hask].
    rewrite <- Hba in Hbid, Hask. simpl in Hbid, Hask.
    exists p. repeat split; auto.
    intros name sd q. destruct sd.
    + rewrite (can_exec_order_buy st' name (b_bond_id b) q p Hfind).
      destruct (Qltb _ _); simpl; discriminate.
    + rewrite (can_exec_order_sell st' name (b_bond_id b) q p Hfind).
      destruct (Qltb _ _); simpl; discriminate.
  - exfalso. pose proof (find_none _ _ E p0 Hp0) as Hf. cbv beta in Hf.
    rewrite Hid0, String.eqb_refl in Hf. discriminate.
Qed.

Lemma published_prices_cover_bonds_witness :
  exists p, find_price st_trading 1 "B2" = Some p /\ 1 # 100 <= precio_mid p.
Proof.
  destruct (published_prices_cover_bonds st_lobby st_trading "t3" (nth 1 ex_bonds bond_B1))
    as (p & Hp & _ & _ & Hmid & _).
  - vm_compute. reflexivity.
  - simpl. auto.
  - exists p. split; [exact Hp|exact Hmid].
Defined.

Lemma mark_published_fields (r : Z) (e : event_t) :
  e_round (mark_published r e) = e_round e
  /\ tipo (mark_published r e) = tipo e
  /\ e_bond_id (mark_published r e) = e_bond_id e
  /\ delta_tasa_bps (mark_published r e) = delta_tasa_bps e
  /\ impacto_bps (mark_published r e) = impacto_bps e.
Proof.
  unfold mark_published. now destruct (e_round e =? r)%Z.
Qed.

Lemma mark_published_twice (r : Z) (e : event_t) :
  mark_published r (mark_published r e) = mark_published r e.
Proof.
  unfold mark_published. destruct (e_round e =? r)%Z eqn:E; simpl; now rewrite E.
Qed.

Lemma map_filter_marked {B : Type} (r : Z) (f : event_t -> B) (g : event_t -> bool)
      (evs : list event_t) :
  (forall e, f (mark_published r e) = f e) ->
  (forall e, g (mark_published r e) = g e) ->
  map f (filter g (map (mark_published r) evs)) = map f (filter g evs).
Proof.
  intros Hf Hg. induction evs as [|e evs IH]; simpl; [reflexivity|].
  rewrite Hg. destruct (g e); simpl; now rewrite ?Hf, IH.
Qed.

Lemma bond_ytm_marked (r r' : Z) (evs : list event_t) (b : bond_t) :
  bond_ytm (map (mark_published r) evs) r' b = bond_ytm evs r' b.
Proof.
  unfold bond_ytm, ev_mkt, ev_idios. f_equal; f_equal.
  - apply map_filter_marked; intros e;
      destruct (mark_published_fields r e) as (H1 & H2 & H3 & H4 & H5);
      now rewrite ?H1, ?H2, ?H3, ?H4, ?H5.
  - apply map_filter_marked; intros e;
      destruct (mark_published_fields r e) as (H1 & H2 & H3 & H4 & H5);
      now rewrite ?H1, ?H2, ?H3, ?H4, ?H5.
Qed.

Lemma map_result_ext {A B : Type} (f g : A -> result B) (xs : list A) :
  (forall x, f x = g x) -> map_result f xs = map_result g xs.
Proof.
  intros H. induction xs as [|x xs IH]; simpl; [reflexivity|]. now rewrite H, IH.
Qed.

(** Publication marks as published exactly the events of the current round
    and leaves every other field of every event as it was; publishing again at
    once (same timestamp) returns the very same document, so a repeated click
    changes nothing. *)
Theorem publish_prices_twice (st st' : state) (now : string) :
  publish_prices_for_round st now = Ok st' ->
  publish_prices_for_round st' now = Ok st'
  /\ Forall2 (fun e e' =>
                e' = (if (e_round e =? ronda_actual (game st))%Z
                      then set_publicado e true else e))
             (events st) (events st')
  /\ (forall e', In e' (events st') -> e_round e' = ronda_actual (game st) ->
                 publicado e' = true).
Proof.
  intros H.
  destruct (publish_prices_for_round_ok st now st' H) as (new & Hnew & ->).
  pose proof (new_prices_round st now new Hnew) as Hround.
  split; [|split].
  - unfold publish_prices_for_round. cbn [game bonds events prices teams orders ledger].
    cbn [set_estado ronda_actual].
    replace (map_result _ (bonds st)) with (Ok new).
    + cbn [bind]. f_equal. f_equal.
      * rewrite map_map. apply map_ext. intros e. apply mark_published_twice.
      * now rewrite (proj1 (filter_other_round_app _ (prices st) new Hround)).
    + rewrite <- Hnew. unfold new_prices. apply map_result_ext. intros b.
      unfold price_point. cbn [set_estado ronda_actual fraccion_anio bid_bp ask_bp].
      now rewrite bond_ytm_marked.
  - cbn [events]. clear. generalize (ronda_actual (game st)). intros r.
    induction (events st) as [|e evs IH]; simpl; constructor; [|exact IH].
    reflexivity.
  - cbn [events]. intros e' Hin Hr. apply in_map_iff in Hin.
    destruct Hin as (e & <- & _). unfold mark_published in *.
    destruct (e_round e =? ronda_actual (game st))%Z eqn:E; [reflexivity|].
    apply Z.eqb_neq in E. contradiction.
Qed.

Lemma publish_prices_twice_witness : publish_prices_for_round st_trading "t3" = Ok st_trading.
Proof.
  apply (publish_prices_twice st_lobby st_trading "t3"). vm_compute. reflexivity.
Defined.

(* ------------------------------------------------------------------ *)
(** ** Leaderboard values                                               *)
(* ------------------------------------------------------------------ *)

Lemma valor_posiciones_set (pm pos : dict) (k : string) (v : Q) :
  valor_posiciones pm (dict_set pos k v)
  == valor_posiciones pm pos + (v - dict_get_or pos k 0) * dict_get_or pm k 0.
Proof.
  rewrite !valor_posiciones_sum.
  induction pos as [|[k0 v0] d IH].
  - simpl. unfold dict_get_or at 2. simpl. ring.
  - cbn [dict_set]. unfold dict_get_or at 3. cbn [dict_get].
    destruct (String.eqb_spec k0 k) as [->|Hne].
    + cbn [map Qsum fst snd]. ring.
    + cbn [map Qsum fst snd]. rewrite IH.
      change (match dict_get d k with Some v1 => v1 | None => 0 end)
        with (dict_get_or d k 0).
      ring.
Qed.

Lemma valor_posiciones_no_prices (pos : dict) : valor_posiciones [] pos == 0.
Proof.
  rewrite valor_posiciones_sum. induction pos as [|[k v] d IH]; simpl; [reflexivity|].
  rewrite IH. unfold dict_get_or. simpl. ring.
Qed.

(** A fill moves the acting team's leaderboard value, at any round's mid
    prices, by exactly the distance between execution price and mid times the
    quantity, less the fees: [qty * (mid - ask) - fees] for a BUY and
    [qty * (bid - mid) - fees] for a SELL ([mid] being the leaderboard's mid
    for the bond, [0] when the round has none).  The rows of teams with
    another identifier do not move. *)
Theorem fill_changes_leaderboard_value
        (st st' : state) (now name b : string) (sd : side_t) (q : Q) (msg : mensaje)
        (ronda : option Z) :
  exec_order st now name sd b q = Ok (st', (true, msg)) ->
  let pm := get_prices_dict st (resolve_ronda st ronda) in
  let mid := dict_get_or pm b 0 in
  get_prices_dict st' (resolve_ronda st' ronda) = pm
  /\ exists team p,
      team_get st name = Some team
      /\ find_price st (ronda_actual (game st)) b = Some p
      /\ Valor_Portafolio (leaderboard_row st' pm team)
         == Valor_Portafolio (leaderboard_row st pm team)
            + match sd with
              | BUY => q * (mid - precio_ask p) - fees_of st q (precio_ask p)
              | SELL => q * (precio_bid p - mid) - fees_of st q (precio_bid p)
              end
      /\ (forall t2,
             (forall team2, team_get st (team_name t2) = Some team2 ->
                            team_id team2 <> team_id team) ->
             leaderboard_row st' pm t2 = leaderboard_row st pm t2).
Proof.
  intros H pm mid.
  destruct (exec_order_accepted_inv st st' now name b sd q msg H)
    as (team & p & Ht & Hp & -> & _).
  split; [reflexivity|].
  exists team, p. split; [exact Ht|]. split; [exact Hp|].
  destruct (fill_effect st now name b sd q (px_of sd p) team Ht) as [Hown Hothers].
  destruct (team_get_some st name team Ht) as [_ Hname].
  split.
  - unfold leaderboard_row. rewrite Hname, Hown.
    destruct (team_positions_and_cash st name) as [pos cash].
    cbn [fst snd]. destruct sd; cbn [px_of Valor_Portafolio];
      rewrite valor_posiciones_set; subst mid; ring.
  - intros t2 H2. unfold leaderboard_row. now rewrite (Hothers (team_name t2) H2).
Qed.

Lemma fill_changes_leaderboard_value_witness :
  exists st', exec_order st_trading "t4" "Alfa" BUY "B1" 10 = Ok (st', (true,
                MsgEjecutada BUY 10 "B1"
                  (precio_ask (nth 0 (prices st_trading) (mkPrice 0 "" 0 0 0 0 "")))
                  (fees_of st_trading 10
                     (precio_ask (nth 0 (prices st_trading) (mkPrice 0 "" 0 0 0 0 ""))))))
    /\ get_prices_dict st' (resolve_ronda st' None)
       = get_prices_dict st_trading (resolve_ronda st_trading None).
Proof.
  eexists. split; [vm_compute; reflexivity|].
  match goal with
  | |- get_prices_dict ?s _ = _ =>
      exact (proj1 (fill_changes_leaderboard_value st_trading s "t4" "Alfa" "B1" BUY 10
               (MsgEjecutada BUY 10 "B1"
                  (precio_ask (nth 0 (prices st_trading) (mkPrice 0 "" 0 0 0 0 "")))
                  (fees_of st_trading 10
                     (precio_ask (nth 0 (prices st_trading) (mkPrice 0 "" 0 0 0 0 "")))))
               None ltac:(vm_compute; reflexivity)))
  end.
Defined.

(** When the round has no price point at all, every leaderboard row values
    the positions at [0] and the portfolio at the reconstructed cash, in the
    rows as built and in the sorted output of any conforming sort. *)
Theorem leaderboard_without_prices (sort_values : list row -> list row)
        (st : state) (ronda : option Z) :
  sort_values_contract sort_values ->
  (forall p, In p (prices st) -> p_ronda p <> resolve_ronda st ronda) ->
  Forall (fun rw => Valor_Posiciones rw == 0 /\ Valor_Portafolio rw == Cash rw)
         (leaderboard_rows st ronda)
  /\ Forall (fun rw => Valor_Posiciones rw == 0 /\ Valor_Portafolio rw == Cash rw)
            (compute_leaderboard sort_values st ronda)
  /\ List.length (compute_leaderboard sort_values st ronda) = List.length (teams st).
Proof.
  intros Hc Hno.
  assert (Hpm : get_prices_dict st (resolve_ronda st ronda) = []).
  { unfold get_prices_dict.
    replace (filter _ (prices st)) with (@nil price_t); [reflexivity|].
    symmetry. induction (prices st) as [|p ps IH]; simpl; [reflexivity|].
    destruct (Z.eqb_spec (p_ronda p) (resolve_ronda st ronda)) as [Heq|_].
    - exfalso. exact (Hno p (or_introl eq_refl) Heq).
    - apply IH. intros p' Hp'. apply Hno. now right. }
  assert (Hrows : Forall (fun rw => Valor_Posiciones rw == 0
                                    /\ Valor_Portafolio rw == Cash rw)
                         (leaderboard_rows st ronda)).
  { unfold leaderboard_rows. rewrite Hpm. apply Forall_forall. intros rw Hin.
    apply in_map_iff in Hin. destruct Hin as (t & <- & _).
    unfold leaderboard_row. destruct (team_positions_and_cash st (team_name t)) as [pos c].
    simpl. split; [apply valor_posiciones_no_prices|].
    rewrite valor_posiciones_no_prices. ring. }
  destruct (compute_leaderboard_perm_sorted sort_values st ronda Hc) as [Hperm _].
  split; [exact Hrows|]. split.
  - eapply Permutation_Forall; [exact Hperm|exact Hrows].
  - rewrite <- (Permutation_length Hperm). unfold leaderboard_rows. apply length_map.
Qed.

Lemma leaderboard_without_prices_witness :
  Forall (fun rw => Valor_Posiciones rw == 0 /\ Valor_Portafolio rw == Cash rw)
         (compute_leaderboard sort_ties_stable st_traded (Some 3%Z)).
Proof.
  apply (leaderboard_without_prices sort_ties_stable st_traded (Some 3%Z)
           sort_ties_stable_contract).
  intros p Hp. simpl in Hp.
  repeat (destruct Hp as [<-|Hp]; [discriminate|]). destruct Hp.
Defined.

(* ------------------------------------------------------------------ *)
(** ** What the moderator's buttons leave alone                         *)
(* ------------------------------------------------------------------ *)

Lemma publish_other_rounds_in (st st' : state) (now : string) (p : price_t) :
  publish_prices_for_round st now = Ok st' ->
  p_ronda p <> ronda_actual (game st) ->
  (In p (prices st') <-> In p (prices st)).
Proof.
  intros H Hr. destruct (publish_prices_for_round_ok st now st' H) as (new & Hnew & ->).
  pose proof (new_prices_round st now new Hnew) as Hround.
  rewrite Forall_forall in Hround. cbn [prices]. split.
  - intros Hin. apply in_app_or in Hin. destruct Hin as [Hin|Hin].
    + now apply filter_In in Hin.
    + apply Hround in Hin. contradiction.
  - intros Hin. apply in_or_app. left. apply filter_In. split; [exact Hin|].
    apply negb_true_iff. now apply Z.eqb_neq.
Qed.

Lemma click_frame (st st' : state) (now : string) (b : boton) :
  ui_moderator_click st now b = Done st' ->
  bonds st' = bonds st /\ teams st' = teams st /\ orders st' = orders st
  /\ ledger st' = ledger st
  /\ rondas_totales (game st') = rondas_totales (game st)
  /\ (ronda_actual (game st) <= ronda_actual (game st') <= ronda_actual (game st) + 1)%Z
  /\ List.length (events st') = List.length (events st)
  /\ (forall p, p_ronda p <> ronda_actual (game st) ->
                (In p (prices st') <-> In p (prices st))).
Proof.
  intros H. destruct b; simpl in H.
  - destruct (bonds st) eqn:Eb.
    + injection H as <-. rewrite Eb. repeat split; auto; lia.
    + destruct (publish_prices_for_round st now) as [s|e] eqn:Ep; [|discriminate].
      injection H as <-.
      pose proof (publish_other_rounds_in st s now) as Hp.
      destruct (publish_prices_for_round_ok st now s Ep) as (new & _ & Hs).
      rewrite Hs in *. cbn [bonds teams orders ledger game events set_estado
                             rondas_totales ronda_actual].
      rewrite length_map, Eb.
      repeat split; auto; try lia; intros Hin; now apply (Hp p Ep H).
  - injection H as <-. simpl. repeat split; auto; lia.
  - destruct (estado_eqb _ _); [|discriminate].
    destruct (ronda_actual (game st) <? rondas_totales (game st))%Z; [|discriminate].
    injection H as <-. simpl. repeat split; auto; lia.
  - destruct (estado_eqb _ _); [|discriminate].
    destruct (ronda_actual (game st) <? rondas_totales (game st))%Z; [discriminate|].
    injection H as <-. simpl. repeat split; auto; lia.
Qed.

(** No sequence of moderator clicks touches the bonds, the teams, the orders
    or the ledger, changes the total number of rounds, drops or adds an
    event, or lowers the current round; and the price points of the rounds
    before the starting round stay exactly as they were. *)
Theorem moderator_clicks_frame (st0 st : state) :
  reachable st0 st ->
  bonds st = bonds st0 /\ teams st = teams st0 /\ orders st = orders st0
  /\ ledger st = ledger st0
  /\ rondas_totales (game st) = rondas_totales (game st0)
  /\ (ronda_actual (game st0) <= ronda_actual (game st))%Z
  /\ List.length (events st) = List.length (events st0)
  /\ (forall p, (p_ronda p < ronda_actual (game st0))%Z ->
                (In p (prices st) <-> In p (prices st0)))
  /\ (forall name, team_positions_and_cash st name = team_positions_and_cash st0 name).
Proof.
  induction 1 as [|st now b st' _ IH Hclick].
  - repeat split; auto; lia.
  - destruct IH as (Hb & Ht & Ho & Hl & Htot & Hr & He & Hp & _).
    destruct (click_frame st st' now b Hclick)
      as (Hb' & Ht' & Ho' & Hl' & Htot' & Hr' & He' & Hp').
    repeat split; try congruence; try lia.
    + intros Hin. apply Hp; [assumption|]. apply Hp'; [lia|exact Hin].
    + intros Hin. apply Hp'; [lia|]. now apply Hp.
    + intros name. unfold team_positions_and_cash, team_get.
      now rewrite Ht', Ho', Hl', Ht, Ho, Hl.
Qed.

Lemma moderator_clicks_frame_witness :
  orders st_round3_closed = orders st_lobby
  /\ (ronda_actual (game st_lobby) <= ronda_actual (game st_round3_closed))%Z.
Proof.
  assert (Hreach : reachable st_lobby st_round3_closed).
  { apply (run_clicks_reachable st_lobby st_lobby st_round3_closed clicks_to_round3).
    - apply reach_refl.
    - vm_compute. reflexivity. }
  destruct (moderator_clicks_frame st_lobby st_round3_closed Hreach)
    as (_ & _ & Ho & _ & _ & Hr & _).
  split; [exact Ho|exact Hr].
Defined.

(* ------------------------------------------------------------------ *)
(** ** The participant's order form                                     *)
(* ------------------------------------------------------------------ *)

(** The order form submits nothing outside TRADING_ON or for a quantity below
    1.  Whatever it records is one order appended to the tape: of the
    submitted side, bond and (positive, integer) quantity, of the current
    round, carrying the identifier of the registered team of that name,
    priced at the ask (BUY) or bid (SELL) of the current round's price point
    with the commission computed on it.  If the history named registered
    teams only, it still does. *)
Theorem order_form_records_well_formed
        (st : state) (now name b : string) (sd : side_t) (n : Z) :
  (estado (game st) <> TRADING_ON \/ (n < 1)%Z ->
   ui_participant_enviar_orden st now name sd b n = None)
  /\ (forall st' msg,
         ui_participant_enviar_orden st now name sd b n = Some (Ok (st', (true, msg))) ->
         estado (game st) = TRADING_ON /\ (1 <= n)%Z
         /\ exists team p,
             team_get st name = Some team
             /\ find_price st (ronda_actual (game st)) b = Some p
             /\ st' = with_orders st
                        (orders st ++ [mkOrder now (team_id team) b sd (inject_Z n)
                                               (px_of sd p)
                                               (fees_of st (inject_Z n) (px_of sd p))
                                               (ronda_actual (game st))])
             /\ 0 < inject_Z n
             /\ (history_of_teams st -> history_of_teams st')).
Proof.
  unfold ui_participant_enviar_orden. split.
  - intros [He|Hn].
    + destruct (estado_eqb (estado (game st)) TRADING_ON) eqn:E; [|reflexivity].
      apply estado_eqb_eq in E. contradiction.
    + destruct (Z.leb_spec 1 n); [lia|]. now rewrite andb_false_r.
  - intros st' msg H.
    destruct (estado_eqb (estado (game st)) TRADING_ON) eqn:E; [|discriminate].
    destruct (Z.leb_spec 1 n) as [Hn|]; [|discriminate].
    simpl in H. injection H as H. apply estado_eqb_eq in E.
    split; [exact E|]. split; [exact Hn|].
    destruct (exec_order_accepted_inv st st' now name b sd (inject_Z n) msg H)
      as (team & p & Ht & Hp & Hst & _).
    exists team, p. repeat split; auto.
    + unfold Qlt. simpl. lia.
    + pose proof H0 as [Ho _]. rewrite Hst. cbn [orders with_orders teams].
      intros o Hin. apply in_app_or in Hin. destruct Hin as [Hin|[<-|[]]].
      * now apply Ho.
      * simpl. apply in_map. now apply (team_get_some st name team).
    + pose proof H0 as [_ Hl]. rewrite Hst. exact Hl.
Qed.

(* ------------------------------------------------------------------ *)
(** ** Entering a team in the participant panel                         *)
(* ------------------------------------------------------------------ *)

(** A team registered with a PIN is entered only with that very PIN: with
    any other PIN the session and the document stay as they were.  With the
    right PIN, or for a team without PIN, the form enters the team under the
    name typed and leaves the document as it was. *)
Theorem pin_protects_team (strip : string -> string) (st : state)
        (now name pin_ : string) (cur : option string) (t : team_t) :
  team_get st name = Some t ->
  (pin t <> ""%string -> pin t <> pin_ ->
   ui_participant_ingresar strip st now name pin_ cur = (st, cur))
  /\ (strip name <> ""%string -> pin t = ""%string \/ pin t = pin_ ->
      ui_participant_ingresar strip st now name pin_ cur = (st, Some name)).
Proof.
  intros Ht. unfold ui_participant_ingresar. rewrite Ht. split.
  - intros Hp Hne.
    destruct (String.eqb (strip name) ""); [reflexivity|].
    rewrite Ht.
    destruct (String.eqb_spec (pin t) "") as [|_]; [contradiction|].
    destruct (String.eqb_spec (pin t) pin_) as [|_]; [contradiction|]. reflexivity.
  - intros Hs Hp.
    destruct (String.eqb_spec (strip name) "") as [|_]; [contradiction|].
    rewrite Ht. destruct Hp as [-> | ->].
    + reflexivity.
    + rewrite String.eqb_refl. now rewrite orb_true_r.
Qed.

Lemma pin_protects_team_witness :
  ui_participant_ingresar strip_ascii st_with_pin "t31" "Gama" "0000" None
  = (st_with_pin, None)
  /\ ui_participant_ingresar strip_ascii st_with_pin "t31" "Gama" "1234" None
     = (st_with_pin, Some "Gama"%string).
Proof.
  destruct (pin_protects_team strip_ascii st_with_pin "t31" "Gama" "0000" None
              (mkTeam "T3" "Gama" "1234" true "t30" 1000000) eq_refl) as [H0 _].
  destruct (pin_protects_team strip_ascii st_with_pin "t31" "Gama" "1234" None
              (mkTeam "T3" "Gama" "1234" true "t30" 1000000) eq_refl) as [_ H1].
  split.
  - apply H0; discriminate.
  - apply H1; [discriminate|now right].
Defined.

(** Submitting a name nobody carries: the team is registered under the
    stripped name with the stripped PIN (unless the stripped name is taken),
    and the session enters it only if a team now answers to the name exactly
    as typed, without PIN or with the PIN exactly as typed.  So a name typed
    with surrounding white space registers the team without entering it, and
    so does a PIN typed with surrounding white space; typed clean, name and
    PIN register and enter at once.  The document changes by at most one team
    appended, and names stay pairwise distinct. *)
Theorem entry_of_unknown_name (strip : string -> string) (st : state)
        (now name pin_ : string) (cur : option string) :
  team_get st name = None -> strip name <> ""%string ->
  let r := ui_participant_ingresar strip st now name pin_ cur in
  fst r = fst (team_register st now (strip name) (strip pin_))
  /\ (strip name <> name -> snd r = cur)
  /\ (strip name = name -> strip pin_ = pin_ -> snd r = Some name)
  /\ (strip name = name -> strip pin_ <> pin_ -> strip pin_ <> ""%string -> snd r = cur)
  /\ (names_unique st -> names_unique (fst r))
  /\ orders (fst r) = orders st /\ ledger (fst r) = ledger st
  /\ prices (fst r) = prices st /\ game (fst r) = game st.
Proof.
  intros Hnone Hs r. subst r. unfold ui_participant_ingresar. rewrite Hnone.
  destruct (String.eqb_spec (strip name) "") as [|_]; [contradiction|].
  set (st1 := fst (team_register st now (strip name) (strip pin_))).
  assert (Hst1 : st1 = st
                 \/ st1 = mkState (game st) (bonds st) (events st) (prices st)
                                  (teams st ++ [new_team st now (strip name) (strip pin_)])
                                  (orders st) (ledger st)).
  { subst st1. destruct (team_get st (strip name)) as [t|] eqn:E.
    - left. unfold team_register. now rewrite E.
    - right. now rewrite (team_register_fresh st now (strip name) (strip pin_) E). }
  assert (Hfst : forall c,
             fst (match team_get st1 name with
                  | Some t => if String.eqb (pin t) "" || String.eqb (pin t) pin_
                              then (st1, Some name) else (st1, c)
                  | None => (st1, c)
                  end) = st1).
  { intros c. destruct (team_get st1 name) as [t|]; [|reflexivity].
    now destruct (String.eqb (pin t) "" || String.eqb (pin t) pin_). }
  rewrite Hfst.
  split; [reflexivity|]. split; [|split; [|split; [|split]]].
  - intros Hne.
    assert (Hget : team_get st1 name = None).
    { destruct Hst1 as [-> | ->]; [exact Hnone|].
      unfold team_get in *. simpl. rewrite find_app_split, Hnone. simpl.
      destruct (String.eqb_spec (strip name) name); [contradiction|reflexivity]. }
    now rewrite Hget.
  - intros Hn Hp. subst st1. rewrite Hn, Hp.
    destruct (team_register_fresh_get st now name pin_ Hnone) as [Hget _].
    rewrite Hget. simpl. now rewrite String.eqb_refl, orb_true_r.
  - intros Hn Hp Hp0. subst st1. rewrite Hn.
    destruct (team_register_fresh_get st now name (strip pin_) Hnone) as [Hget _].
    rewrite Hget. simpl.
    destruct (String.eqb_spec (strip pin_) "") as [|_]; [contradiction|].
    destruct (String.eqb_spec (strip pin_) pin_) as [|_]; [contradiction|]. reflexivity.
  - intros Hu. subst st1. now apply team_register_names_unique.
  - destruct Hst1 as [-> | ->]; simpl; auto.
Qed.

Lemma entry_of_unknown_name_witness :
  snd (ui_participant_ingresar strip_ascii st_lobby "t40" "Delta " "" None) = None
  /\ map team_name (teams (fst (ui_participant_ingresar strip_ascii st_lobby "t40"
                                  "Delta " "" None)))
     = ["Alfa"; "Beta"; "Delta"]%string.
Proof.
  destruct (entry_of_unknown_name strip_ascii st_lobby "t40" "Delta " "" None eq_refl)
    as (Hfst & Hne & _).
  - vm_compute. discriminate.
  - split; [apply Hne; vm_compute; discriminate|].
    rewrite Hfst. reflexivity.
Defined.

(* ------------------------------------------------------------------ *)
(** ** Shape of the price in yield and maturity                         *)
(* ------------------------------------------------------------------ *)

Lemma Qpower_succ (a : Q) (n : nat) :
  ~ a == 0 -> a ^ Z.of_nat (S n) == a ^ Z.of_nat n * a.
Proof.
  intros Ha. rewrite Nat2Z.inj_succ. unfold Z.succ.
  rewrite Qpower_plus by exact Ha. now rewrite Qpower_1_r.
Qed.

Lemma Qpower_base_le (a b : Q) (n : nat) :
  0 < a -> a <= b -> a ^ Z.of_nat n <= b ^ Z.of_nat n.
Proof.
  intros Ha Hab.
  assert (Hb : 0 < b) by now apply Qlt_le_trans with a.
  induction n as [|n IH].
  - simpl. apply Qle_refl.
  - rewrite !Qpower_succ.
    + apply Qmult_le_compat_nonneg; split; auto.
      * apply Qpower_0_le. now apply Qlt_le_weak.
      * now apply Qlt_le_weak.
    + intros H0. rewrite H0 in Hb. discriminate.
    + intros H0. rewrite H0 in Ha. discriminate.
Qed.

Lemma Qdiv_antitone (c x y : Q) : 0 <= c -> 0 < x -> x <= y -> c / y <= c / x.
Proof.
  intros Hc Hx Hxy.
  assert (Hy : 0 < y) by now apply Qlt_le_trans with x.
  apply Qle_shift_div_l; [exact Hx|].
  setoid_replace (c / y * x) with (c * x / y)
    by (field; intros H0; rewrite H0 in Hy; discriminate).
  apply Qle_shift_div_r; [exact Hy|].
  rewrite !(Qmult_comm c). now apply Qmult_le_compat_r.
Qed.

Lemma Qsum_map_le {A : Type} (g h : A -> Q) (xs : list A) :
  (forall x, g x <= h x) -> Qsum (map g xs) <= Qsum (map h xs).
Proof.
  intros H. induction xs as [|x xs IH]; simpl; [apply Qle_refl|].
  now apply Qplus_le_compat.
Qed.

Lemma annuity_at_par (V i : Q) (n : nat) :
  ~ 1 + i == 0 ->
  Qsum (map (fun k => V * i / (1 + i) ^ Z.of_nat k) (seq 1 n)) + V / (1 + i) ^ Z.of_nat n
  == V.
Proof.
  intros Hi. induction n as [|n IH].
  - simpl. field.
  - etransitivity; [|exact IH].
    rewrite seq_S, map_app, Qsum_app. cbn [map Qsum].
    change (1 + n)%nat with (S n). rewrite Qpower_succ by exact Hi.
    field. split; first [exact Hi | now apply Qpower_not_0].
Qed.

(** The specification's price does not rise with the yield, for a bond of
    non-negative face value and coupon, positive frequency and positive
    discount factor. *)
Lemma spec_price_mid_antitone (V c : Q) (f : Z) (m y1 y2 q : Q) (e : Z) :
  (0 < f)%Z -> 0 <= V -> 0 <= c -> 0 < 1 + y1 / inject_Z f -> y1 <= y2 ->
  spec_price_mid V c f m y2 q e <= spec_price_mid V c f m y1 q e.
Proof.
  intros Hf HV Hc H1 Hy. unfold spec_price_mid.
  assert (Hfq : 0 < inject_Z f) by (unfold Qlt; simpl; lia).
  assert (Hi : 1 + y1 / inject_Z f <= 1 + y2 / inject_Z f).
  { apply Qplus_le_r. unfold Qdiv. apply Qmult_le_compat_r; [exact Hy|].
    apply Qlt_le_weak. now apply Qinv_lt_0_compat. }
  assert (HC : 0 <= V * c / inject_Z f).
  { apply Qle_shift_div_l; [exact Hfq|]. rewrite Qmult_0_l.
    now apply Qmult_le_0_compat. }
  set (N := Z.max 1 _).
  assert (HN : Z.of_nat (Z.to_nat N) = N) by (apply Z2Nat.id; subst N; lia).
  apply Q.max_le_compat_l. apply Qplus_le_compat.
  - apply Qsum_map_le. intros k. apply Qdiv_antitone; [exact HC| |].
    + now apply Qpower_0_lt.
    + now apply Qpower_base_le.
  - rewrite <- HN. apply Qdiv_antitone; [exact HV| |].
    + now apply Qpower_0_lt.
    + now apply Qpower_base_le.
Qed.

Lemma price_bond_mid_antitone (bond : bond_t) (y1 y2 q : Q) (e : Z) :
  let f := int_or (frecuencia_anual bond) 2 in
  (0 < f)%Z -> 0 <= valor_nominal bond -> 0 <= tasa_cupon_anual bond ->
  0 < 1 + y1 / inject_Z f -> y1 <= y2 ->
  exists v1 v2,
    price_bond_mid bond y1 q e = Ok v1
    /\ price_bond_mid bond y2 q e = Ok v2
    /\ v2 <= v1.
Proof.
  intros f Hf HV Hc H1 Hy.
  assert (Hfq : 0 < inject_Z f) by (unfold Qlt; simpl; lia).
  assert (H2 : 0 < 1 + y2 / inject_Z f).
  { apply Qlt_le_trans with (1 + y1 / inject_Z f); [exact H1|].
    apply Qplus_le_r. unfold Qdiv. apply Qmult_le_compat_r; [exact Hy|].
    apply Qlt_le_weak. now apply Qinv_lt_0_compat. }
  destruct (price_bond_mid_value bond y1 q e) as (v1 & Hv1 & Hs1 & _).
  { fold f. intros H0. rewrite H0 in H1. discriminate. }
  destruct (price_bond_mid_value bond y2 q e) as (v2 & Hv2 & Hs2 & _).
  { fold f. intros H0. rewrite H0 in H2. discriminate. }
  exists v1, v2. split; [exact Hv1|]. split; [exact Hv2|].
  rewrite Hs1, Hs2. now apply spec_price_mid_antitone.
Qed.

(** A higher yield never gives a higher price: for a bond of non-negative
    face value and coupon rate and positive frequency, priced at a yield with a
    positive discount factor, the price returned at a larger yield is not
    larger. *)
Theorem price_falls_when_yield_rises (bond : bond_t) (y1 y2 q : Q) (e : Z) (v1 v2 : Q) :
  let f := int_or (frecuencia_anual bond) 2 in
  (0 < f)%Z -> 0 <= valor_nominal bond -> 0 <= tasa_cupon_anual bond ->
  0 < 1 + y1 / inject_Z f -> y1 <= y2 ->
  price_bond_mid bond y1 q e = Ok v1 ->
  price_bond_mid bond y2 q e = Ok v2 ->
  v2 <= v1.
Proof.
  intros f Hf HV Hc H1 Hy Hv1 Hv2.
  destruct (price_bond_mid_antitone bond y1 y2 q e Hf HV Hc H1 Hy)
    as (w1 & w2 & Hw1 & Hw2 & Hle).
  rewrite Hv1 in Hw1. rewrite Hv2 in Hw2. injection Hw1 as <-. injection Hw2 as <-.
  exact Hle.
Qed.

Lemma price_falls_when_yield_rises_witness :
  exists v1 v2,
    price_bond_mid bond_B1 (50 # 10000) (1 # 4) 0 = Ok v1
    /\ price_bond_mid bond_B1 (125 # 10000) (1 # 4) 0 = Ok v2
    /\ v2 <= v1.
Proof.
  set (v1 := ok_value (price_bond_mid bond_B1 (50 # 10000) (1 # 4) 0)).
  set (v2 := ok_value (price_bond_mid bond_B1 (125 # 10000) (1 # 4) 0)).
  exists v1, v2.
  assert (Hv1 : price_bond_mid bond_B1 (50 # 10000) (1 # 4) 0 = Ok v1)
    by (vm_compute; reflexivity).
  assert (Hv2 : price_bond_mid bond_B1 (125 # 10000) (1 # 4) 0 = Ok v2)
    by (vm_compute; reflexivity).
  split; [exact Hv1|]. split; [exact Hv2|].
  apply (price_falls_when_yield_rises bond_B1 (50 # 10000) (125 # 10000) (1 # 4) 0 v1 v2);
    first [exact Hv1 | exact Hv2 | reflexivity | discriminate].
Defined.

(** Scripted events move prices the expected way: inserting into the event
    list an event whose contribution to a bond's yield in the round is not
    negative (a MARKET event of the round with a non-negative delta, an IDIOS
    event of the round naming the bond with a non-negative impact, or any
    event of another round or bond) never raises the mid that is returned for
    that bond; when the contribution is zero the mid is the same. *)
Theorem event_shock_moves_price (g : game_t) (evs1 evs2 : list event_t) (e : event_t)
        (b : bond_t) (v v' : Q) :
  let r := ronda_actual g in
  let f := int_or (frecuencia_anual b) 2 in
  (0 < f)%Z -> 0 <= valor_nominal b -> 0 <= tasa_cupon_anual b ->
  0 < 1 + bond_ytm (evs1 ++ evs2) r b / inject_Z f ->
  0 <= event_contribution e r (b_bond_id b) ->
  price_bond_mid b (bond_ytm (evs1 ++ evs2) r b) (fraccion_anio g) (r - 1) = Ok v ->
  price_bond_mid b (bond_ytm (evs1 ++ e :: evs2) r b) (fraccion_anio g) (r - 1) = Ok v' ->
  v' <= v
  /\ (event_contribution e r (b_bond_id b) == 0 -> v' == v).
Proof.
  intros r f Hf HV Hc H1 He Hv Hv'.
  assert (Hfq : 0 < inject_Z f) by (unfold Qlt; simpl; lia).
  pose proof (bond_ytm_additive evs1 evs2 e r b) as Hadd.
  assert (Hy : bond_ytm (evs1 ++ evs2) r b <= bond_ytm (evs1 ++ e :: evs2) r b).
  { rewrite Hadd. rewrite <- (Qplus_0_r (bond_ytm (evs1 ++ evs2) r b)) at 1.
    apply Qplus_le_r. apply Qle_shift_div_l; [reflexivity|]. now rewrite Qmult_0_l. }
  destruct (price_bond_mid_antitone b _ _ (fraccion_anio g) (r - 1) Hf HV Hc H1 Hy)
    as (w & w' & Hw & Hw' & Hle).
  rewrite Hv in Hw. rewrite Hv' in Hw'. injection Hw as <-. injection Hw' as <-.
  split; [exact Hle|].
  intros H0.
  assert (Hy' : bond_ytm (evs1 ++ e :: evs2) r b <= bond_ytm (evs1 ++ evs2) r b).
  { rewrite Hadd, H0. unfold Qdiv. rewrite Qmult_0_l, Qplus_0_r. apply Qle_refl. }
  assert (H1' : 0 < 1 + bond_ytm (evs1 ++ e :: evs2) r b / inject_Z f).
  { apply Qlt_le_trans with (1 + bond_ytm (evs1 ++ evs2) r b / inject_Z f); [exact H1|].
    apply Qplus_le_r. unfold Qdiv. apply Qmult_le_compat_r; [exact Hy|].
    apply Qlt_le_weak. now apply Qinv_lt_0_compat. }
  destruct (price_bond_mid_antitone b _ _ (fraccion_anio g) (r - 1) Hf HV Hc H1' Hy')
    as (u' & u & Hu' & Hu & Hle').
  rewrite Hv in Hu. rewrite Hv' in Hu'. injection Hu as <-. injection Hu' as <-.
  now apply Qle_antisym.
Qed.

Lemma event_shock_moves_price_witness :
  exists v v',
    price_bond_mid bond_B1 (bond_ytm ([] ++ []) 1 bond_B1) (1 # 4) (1 - 1) = Ok v
    /\ price_bond_mid bond_B1
         (bond_ytm ([] ++ mkEvent 1 MARKET None 75 0 "Shock de tasas +75 bps" false :: [])
                   1 bond_B1) (1 # 4) (1 - 1) = Ok v'
    /\ v' <= v.
Proof.
  set (shock := mkEvent 1 MARKET None 75 0 "Shock de tasas +75 bps" false).
  set (v := ok_value (price_bond_mid bond_B1 (bond_ytm ([] ++ []) 1 bond_B1)
                                     (1 # 4) (1 - 1))).
  set (v' := ok_value (price_bond_mid bond_B1 (bond_ytm ([] ++ shock :: []) 1 bond_B1)
                                      (1 # 4) (1 - 1))).
  exists v, v'.
  assert (Hv : price_bond_mid bond_B1 (bond_ytm ([] ++ []) 1 bond_B1) (1 # 4) (1 - 1) = Ok v)
    by (vm_compute; reflexivity).
  assert (Hv' : price_bond_mid bond_B1 (bond_ytm ([] ++ shock :: []) 1 bond_B1)
                               (1 # 4) (1 - 1) = Ok v')
    by (vm_compute; reflexivity).
  pose proof (event_shock_moves_price (game st_lobby) [] [] shock bond_B1 v v') as H.
  cbv zeta in H.
  assert (H1 : (0 < int_or (frecuencia_anual bond_B1) 2)%Z) by reflexivity.
  assert (H2 : 0 <= valor_nominal bond_B1) by discriminate.
  assert (H3 : 0 <= tasa_cupon_anual bond_B1) by discriminate.
  assert (H4 : 0 < 1 + bond_ytm ([] ++ []) (ronda_actual (game st_lobby)) bond_B1
                     / inject_Z (int_or (frecuencia_anual bond_B1) 2)) by reflexivity.
  assert (H5 : 0 <= event_contribution shock
                      (ronda_actual (game st_lobby)) (b_bond_id bond_B1)) by discriminate.
  destruct (H H1 H2 H3 H4 H5 Hv Hv') as (Hle & _).
  split; [exact Hv|]. split; [exact Hv'|exact Hle].
Defined.

(** At a yield equal to the coupon rate, the price that is returned is the
    bond's face value (floored at [0.01]), whatever the frequency, the
    remaining maturity and the round. *)
Theorem price_at_par (bond : bond_t) (q : Q) (e : Z) (v : Q) :
  price_bond_mid bond (tasa_cupon_anual bond) q e = Ok v ->
  v == Qmax (1 # 100) (valor_nominal bond).
Proof.
  intros Hv. set (f := int_or (frecuencia_anual bond) 2).
  destruct (price_bond_mid_ok_inv bond (tasa_cupon_anual bond) q e v Hv) as (Hi & Hs & _).
  fold f in Hi, Hs.
  rewrite Hs. unfold spec_price_mid.
  set (N := Z.max 1 _).
  assert (HN : Z.of_nat (Z.to_nat N) = N) by (apply Z2Nat.id; subst N; lia).
  apply Q.max_compat; [reflexivity|].
  rewrite <- HN at 2.
  etransitivity;
    [|apply (annuity_at_par (valor_nominal bond) (tasa_cupon_anual bond / inject_Z f)
                            (Z.to_nat N) Hi)].
  apply Qplus_comp; [|reflexivity].
  apply Qsum_map_ext. intros k. field.
  split; [|now apply Qpower_not_0].
  apply int_or_nonzero. lia.
Qed.

Lemma price_at_par_witness :
  exists v, price_bond_mid bond_B1 (8 # 100) (1 # 4) 2 = Ok v /\ v == 1000.
Proof.
  set (v := ok_value (price_bond_mid bond_B1 (8 # 100) (1 # 4) 2)).
  exists v.
  assert (Hv : price_bond_mid bond_B1 (8 # 100) (1 # 4) 2 = Ok v)
    by (vm_compute; reflexivity).
  split; [exact Hv|].
  rewrite (price_at_par bond_B1 (1 # 4) 2 v Hv). reflexivity.
Defined.

(** Once the elapsed rounds cover the initial maturity, the bond is priced as
    if exactly one coupon period remained: one coupon plus the face value,
    discounted once (floored at [0.01]) -- it never matures to nothing. *)
Theorem price_after_maturity (bond : bond_t) (y q : Q) (e : Z) :
  let f := int_or (frecuencia_anual bond) 2 in
  vencimiento_anios bond <= inject_Z e * q ->
  ~ 1 + y / inject_Z f == 0 ->
  exists v,
    price_bond_mid bond y q e = Ok v
    /\ v == Qmax (1 # 100)
                 ((valor_nominal bond * tasa_cupon_anual bond / inject_Z f
                   + valor_nominal bond) / (1 + y / inject_Z f)).
Proof.
  intros f Hm Hi.
  destruct (price_bond_mid_value bond y q e Hi) as (v & Hv & Hs & _).
  exists v. split; [exact Hv|]. rewrite Hs. unfold spec_price_mid. fold f.
  assert (Hrem : Qmax 0 (vencimiento_anios bond - inject_Z e * q) == 0).
  { apply Q.max_l. apply Qle_minus_iff.
    setoid_replace (0 + - (vencimiento_anios bond - inject_Z e * q))
      with (inject_Z e * q + - vencimiento_anios bond) by ring.
    now apply Qle_minus_iff in Hm. }
  assert (HN : Qceiling (Qmax 0 (vencimiento_anios bond - inject_Z e * q)
                         / (1 / inject_Z f)) = 0%Z).
  { transitivity (Qceiling 0); [|reflexivity].
    apply Qceiling_comp. rewrite Hrem. unfold Qdiv. apply Qmult_0_l. }
  rewrite HN. change (Z.max 1 0) with 1%Z. change (Z.to_nat 1) with 1%nat.
  cbn [seq map Qsum].
  apply Q.max_compat; [reflexivity|].
  change (Z.of_nat 1) with 1%Z. rewrite !Qpower_1_r. field.
  assert (Hf : ~ inject_Z f == 0) by (apply int_or_nonzero; lia).
  split; [exact Hf|]. intros H0. apply Hi.
  setoid_replace (1 + y / inject_Z f) with ((inject_Z f + y) / inject_Z f)
    by (field; exact Hf).
  rewrite H0. unfold Qdiv. apply Qmult_0_l.
Qed.

Lemma price_after_maturity_witness :
  exists v, price_bond_mid bond_B1 (125 # 10000) (1 # 4) 12 = Ok v
            /\ v == Qmax (1 # 100) ((1000 * (8 # 100) / 2 + 1000) / (1 + (125 # 10000) / 2)).
Proof.
  apply (price_after_maturity bond_B1 (125 # 10000) (1 # 4) 12); vm_compute; discriminate.
Defined.
